(** * OllamaDocProcessor: the chunked-inference pipeline

    A shallow embedding of [ollamadocprocessor.py] (the command-line front
    end) and [gui_ollamadocprocessor.py] (the Tk front end), and the
    properties of the chunker, the whitespace normalisation, the inference
    client and the two drivers.

    Python values are modelled as follows.
    - [str] is a list of Unicode code points ([N]).
    - [int] is [Z].
    - a function that may raise returns a [result].
    - the drivers thread an explicit [World]: the content of [out.txt], the
      trace of HTTP requests, the operator-visible events and the GUI's
      [stop_processing] flag. *)

From Stdlib Require Import String Ascii List ZArith NArith QArith Bool Lia.
From Stdlib Require Import DecimalString DecimalPos.
Import ListNotations.
Close Scope Q_scope.

Set Implicit Arguments.
Set Warnings "-register-all".

(** ** Python strings *)

Definition char := N.
Definition text := list char.

(** A string literal of the source, as code points. *)
Definition str (s : string) : text :=
  map N_of_ascii (list_ascii_of_string s).

Definition SP : char := 32%N.
Definition NL : char := 10%N.
Definition TAB : char := 9%N.

(** [Py_UNICODE_ISSPACE]: the predicate behind [str.split()], [str.strip()]
    and the [\s] class of [re] on [str] patterns. *)
Definition isspace (c : char) : bool :=
  ((9 <=? c) && (c <=? 13) || (28 <=? c) && (c <=? 32)
   || (c =? 133) || (c =? 160) || (c =? 5760)
   || (8192 <=? c) && (c <=? 8202)
   || (c =? 8232) || (c =? 8233) || (c =? 8239) || (c =? 8287)
   || (c =? 12288))%N.

Definition text_eqb (a b : text) : bool :=
  if list_eq_dec N.eq_dec a b then true else false.

(** [' '.join(parts)] *)
Fixpoint join (sep : text) (parts : list text) : text :=
  match parts with
  | [] => []
  | [p] => p
  | p :: rest => p ++ sep ++ join sep rest
  end.

(** [text.split()]: the maximal runs of non-whitespace characters.  [cur] is
    the word being scanned. *)
Definition emit (cur : text) (rest : list text) : list text :=
  match cur with
  | [] => rest
  | _ => cur :: rest
  end.

Fixpoint split_go (cur : text) (s : text) : list text :=
  match s with
  | [] => emit cur []
  | c :: s' =>
      if isspace c then emit cur (split_go [] s')
      else split_go (cur ++ [c]) s'
  end.

Definition split (s : text) : list text := split_go [] s.

(** [len(text.split())] *)
Definition word_count (s : text) : Z := Z.of_nat (length (split s)).

(** [re.sub(r'\s+', ' ', text)]: the scanner emits one space at the start of
    a run of whitespace and skips the rest of the run ([in_run]). *)
Fixpoint sub_ws (in_run : bool) (s : text) : text :=
  match s with
  | [] => []
  | c :: s' =>
      if isspace c
      then (if in_run then sub_ws true s' else SP :: sub_ws true s')
      else c :: sub_ws false s'
  end.

Definition re_sub_ws (s : text) : text := sub_ws false s.

(** [str.strip()] *)
Fixpoint lstrip (s : text) : text :=
  match s with
  | [] => []
  | c :: s' => if isspace c then lstrip s' else s
  end.

Definition rstrip (s : text) : text := rev (lstrip (rev s)).

Definition strip (s : text) : text := rstrip (lstrip s).

(** [re.sub(r'\s+', ' ', text).strip()], line 141 of the CLI and line 242 of
    the GUI. *)
Definition normalize (s : text) : text := strip (re_sub_ws s).

(** ** The chunker *)

(** The body of [chunk_text]: the [for] loop with its two local variables,
    and the final [if current_chunk].  A [yield] conses onto the result. *)
Fixpoint chunk_loop (max_words : Z) (words : list text)
    (current_chunk : list text) (current_count : Z) : list text :=
  match words with
  | [] =>
      match current_chunk with
      | [] => []
      | _ => [join [SP] current_chunk]
      end
  | word :: words' =>
      let current_chunk := current_chunk ++ [word] in
      let current_count := (current_count + 1)%Z in
      if (current_count >=? max_words)%Z
      then join [SP] current_chunk :: chunk_loop max_words words' [] 0
      else chunk_loop max_words words' current_chunk current_count
  end.

Definition chunk_text (t : text) (max_words : Z) : list text :=
  chunk_loop max_words (split t) [] 0.

(** *** The generator object

    [chunk_text] is a generator function.  A generator object is its frame:
    the words still to visit and the two locals; [finished] is set once the
    body has nothing left to run after the current [yield]. *)
Record Gen := mkGen {
  g_max_words : Z;
  g_words : list text;
  g_current_chunk : list text;
  g_current_count : Z;
  g_finished : bool
}.

Definition gen_start (t : text) (max_words : Z) : Gen :=
  mkGen max_words (split t) [] 0 false.

(** Run the body from the current point up to the next [yield]. *)
Fixpoint gen_resume (max_words : Z) (words : list text)
    (current_chunk : list text) (current_count : Z) : option text * Gen :=
  match words with
  | [] =>
      match current_chunk with
      | [] => (None, mkGen max_words [] [] current_count true)
      | _ => (Some (join [SP] current_chunk),
              mkGen max_words [] current_chunk current_count true)
      end
  | word :: words' =>
      let current_chunk := current_chunk ++ [word] in
      let current_count := (current_count + 1)%Z in
      if (current_count >=? max_words)%Z
      then (Some (join [SP] current_chunk),
            mkGen max_words words' [] 0 false)
      else gen_resume max_words words' current_chunk current_count
  end.

(** [next(g)]: [None] is [StopIteration]. *)
Definition gen_next (g : Gen) : option text * Gen :=
  if g_finished g then (None, g)
  else gen_resume (g_max_words g) (g_words g)
         (g_current_chunk g) (g_current_count g).

(** [list(g)], with a bound on the number of [next] calls. *)
Fixpoint gen_drain (fuel : nat) (g : Gen) : option (list text) :=
  match fuel with
  | O => None
  | S fuel' =>
      match gen_next g with
      | (None, _) => Some []
      | (Some c, g') =>
          match gen_drain fuel' g' with
          | Some cs => Some (c :: cs)
          | None => None
          end
      end
  end.

(** ** Python values, exceptions and results *)

(** [str(i)] for an [int]. *)
Definition py_str_int (i : Z) : text :=
  str (NilZero.string_of_int (Z.to_int i)).

(** The value [response.json()] returns: [JObj] is the [dict], as an
    association list. *)
Inductive json :=
| JNull
| JBool (b : bool)
| JNum (literal : text)
| JStr (s : text)
| JArr (items : list json)
| JObj (fields : list (text * json)).

(** The exception classes the two programs can meet.  All are subclasses of
    [Exception]; [RequestException] stands for
    [requests.exceptions.RequestException] and its subclasses
    ([ConnectionError], [Timeout], [HTTPError], [JSONDecodeError], ...). *)
Inductive exn :=
| RequestException (msg : text)
| KeyError (key : text)
| TypeError (msg : text)
| UnicodeDecodeError (msg : text)
| OSError (msg : text)
| OtherException (msg : text).

Definition is_RequestException (e : exn) : bool :=
  match e with RequestException _ => true | _ => false end.

Definition is_UnicodeDecodeError (e : exn) : bool :=
  match e with UnicodeDecodeError _ => true | _ => false end.

(** [str(e)] *)
Definition exn_str (e : exn) : text :=
  match e with
  | RequestException msg => msg
  | KeyError key => str "'" ++ key ++ str "'"
  | TypeError msg => msg
  | UnicodeDecodeError msg => msg
  | OSError msg => msg
  | OtherException msg => msg
  end.

Inductive result (A : Type) :=
| Ok (a : A)
| Raise (e : exn).
Arguments Ok {A} a.
Arguments Raise {A} e.

(** ** The outside world *)

(** The JSON document posted to the endpoint (the [data] dict). *)
Record RequestData := mkData {
  d_model : text;
  d_prompt : text;
  d_stream : bool;
  d_temperature : Q;
  d_num_ctx : Z
}.

Record Request := mkRequest {
  req_url : text;
  req_headers : list (text * text);
  req_json : RequestData
}.

Inductive http_body :=
| NotJson (msg : text)
| Json (j : json).

(** What one [requests.post] meets: no response at all, or a response with
    its status line and body. *)
Inductive http_outcome :=
| TransportError (msg : text)
| HttpResponse (status : Z) (reason : text) (body : http_body).

(** What reading a directory entry yields, per reader.  A directory that
    passes the name filter is an entry every reader fails on. *)
Record FileData := mkFileData {
  read_utf8 : result text;
  read_latin1 : result text;
  pdf_pages : result (list text);
  docx_paragraphs : result (list text)
}.

Inductive Entry :=
| File (name : text) (data : FileData)
| Dir (name : text) (children : list Entry).

Definition entry_name (e : Entry) : text :=
  match e with
  | File name _ => name
  | Dir name _ => name
  end.

Definition is_a_directory : exn := OSError (str "Is a directory").

Definition entry_data (e : Entry) : FileData :=
  match e with
  | File _ data => data
  | Dir _ _ =>
      mkFileData (Raise is_a_directory) (Raise is_a_directory)
        (Raise is_a_directory) (Raise is_a_directory)
  end.

(** The environment of a run: the children of a directory in the order the
    operating system lists them, the endpoint's answer to the n-th request,
    whether the operator presses Stop while the n-th blocking step
    (an extraction or an inference call) is running, and whether a path
    names an existing directory. *)
Record Env := mkEnv {
  listdir : text -> list Entry;
  endpoint : nat -> Request -> http_outcome;
  user_stop : nat -> bool;
  isdir : text -> bool
}.

(** Messages on the operator-visible channel ([print], the GUI's
    [output_text.insert], [messagebox.showerror]), by kind and parameters. *)
Inductive Event :=
| EvProcessingFile (name : text)
| EvNoTextExtracted (name : text)
| EvResponse (name : text) (chunk : option Z) (response : json)
| EvErrorProcessing (name : text) (e : exn)
| EvErrorExtracting (name : text) (e : exn)
| EvUnsupportedFileType (ext : text)
| EvStopRequested
| EvInterrupted
| EvProcessingComplete
| EvShowError (title msg : text)
| EvUsageError
| EvOutputCleared.

Record World := mkWorld {
  out_txt : option text;
  requests : list Request;
  events : list Event;
  stop_processing : bool;
  clock : nat;
  start_button : bool;
  stop_button : bool
}.

Definition set_out (o : option text) (w : World) : World :=
  mkWorld o (requests w) (events w) (stop_processing w) (clock w)
    (start_button w) (stop_button w).

Definition add_request (r : Request) (w : World) : World :=
  mkWorld (out_txt w) (requests w ++ [r]) (events w) (stop_processing w)
    (clock w) (start_button w) (stop_button w).

Definition add_event (e : Event) (w : World) : World :=
  mkWorld (out_txt w) (requests w) (events w ++ [e]) (stop_processing w)
    (clock w) (start_button w) (stop_button w).

Definition set_stop (b : bool) (w : World) : World :=
  mkWorld (out_txt w) (requests w) (events w) b (clock w)
    (start_button w) (stop_button w).

Definition set_clock (n : nat) (w : World) : World :=
  mkWorld (out_txt w) (requests w) (events w) (stop_processing w) n
    (start_button w) (stop_button w).

Definition set_buttons (start stop : bool) (w : World) : World :=
  mkWorld (out_txt w) (requests w) (events w) (stop_processing w) (clock w)
    start stop.

(** [stop_processing_func], the Stop button's callback. *)
Definition stop_processing_func (w : World) : World :=
  add_event EvStopRequested (set_stop true w).

(** ** A state and exception monad for the drivers *)

Definition M (A : Type) : Type := World -> result A * World.

Definition ret {A} (a : A) : M A := fun w => (Ok a, w).

Definition raise {A} (e : exn) : M A := fun w => (Raise e, w).

Definition bind {A B} (m : M A) (k : A -> M B) : M B :=
  fun w =>
    match m w with
    | (Ok a, w') => k a w'
    | (Raise e, w') => (Raise e, w')
    end.

Notation "x <- m ;; k" := (bind m (fun x => k))
  (at level 61, m at next level, right associativity).
Notation "m ;;; k" := (bind m (fun _ => k))
  (at level 61, right associativity).

(** [try: m except <class> as e: h e] *)
Definition try_except {A} (m : M A) (caught : exn -> bool)
    (h : exn -> M A) : M A :=
  fun w =>
    match m w with
    | (Ok a, w') => (Ok a, w')
    | (Raise e, w') => if caught e then h e w' else (Raise e, w')
    end.

Definition any_Exception (e : exn) : bool := true.

Definition lift {A} (r : result A) : M A := fun w => (r, w).

Definition emit_event (e : Event) : M unit :=
  fun w => (Ok tt, add_event e w).

Definition get_stop : M bool := fun w => (Ok (stop_processing w), w).

(** ** Paths *)

Definition DOT : char := 46%N.

(** The part of [s] from its last dot on, when [s] has a dot. *)
Fixpoint from_last_dot (s : text) : option text :=
  match s with
  | [] => None
  | c :: s' =>
      match from_last_dot s' with
      | Some x => Some x
      | None => if (c =? DOT)%N then Some s else None
      end
  end.

(** [PurePath.suffix] of a file name, as [pathlib] computes it up to
    CPython 3.12: [i = name.rfind('.')], and [name[i:]] when
    [0 < i < len(name) - 1], else the empty string. *)
Definition suffix (name : text) : text :=
  match name with
  | [] => []
  | _ :: rest =>
      match from_last_dot rest with
      | Some ((_ :: _ :: _) as x) => x
      | _ => []
      end
  end.

(** [str.lower()] on the ASCII letters; the cased letters outside ASCII are
    left as they are (none of them lowers to a letter of the four supported
    extensions). *)
Definition lower_char (c : char) : char :=
  if ((65 <=? c) && (c <=? 90))%N then (c + 32)%N else c.

Definition lower (s : text) : text := map lower_char s.

Definition supported_extensions : list text :=
  [str ".txt"; str ".pdf"; str ".doc"; str ".docx"].

(** [x in [...]] on strings. *)
Definition text_in (x : text) (l : list text) : bool :=
  existsb (text_eqb x) l.

(** The pattern ['*.*'] of [Path.glob]: a name with a dot in it. *)
Definition matches_star_dot_star (name : text) : bool :=
  existsb (N.eqb DOT) name.

(** [Path(directory).glob('*.*')]: the matching children of the directory
    itself; nothing below them is visited. *)
Definition glob_star_dot_star (children : list Entry) : list Entry :=
  filter (fun e => matches_star_dot_star (entry_name e)) children.

(** The test of lines 127-128 (CLI) and 230-231 (GUI). *)
Definition selected (name : text) : bool :=
  text_in (lower (suffix name)) supported_extensions
  && negb (text_eqb name (str "out.txt")).

(** ** The record format of [out.txt] *)

Definition header (name : text) (chunk : option Z) : text :=
  match chunk with
  | None =>
      [NL; NL] ++ str "=== Response for " ++ name ++ str " ===" ++ [NL]
  | Some i =>
      [NL; NL] ++ str "=== Response for " ++ name ++ str " (chunk "
      ++ py_str_int i ++ str ") ===" ++ [NL]
  end.

Definition record (name : text) (chunk : option Z) (body : text) : text :=
  header name chunk ++ body.

Definition out_content (w : World) : text :=
  match out_txt w with
  | Some c => c
  | None => []
  end.

(** [output_file.touch(exist_ok=True)], where [output_file] is [out.txt]
    in the target directory: it creates the file when there is none, and
    raises [FileNotFoundError] (an [OSError]) when the directory does not
    exist. *)
Definition touch (directory_exists : bool) : M unit :=
  fun w =>
    if directory_exists then
      match out_txt w with
      | Some _ => (Ok tt, w)
      | None => (Ok tt, set_out (Some []) w)
      end
    else (Raise (OSError (str "No such file or directory")), w).

(** [with open(output_file, 'w') as f: f.write("")] *)
Definition truncate_out : M unit :=
  fun w => (Ok tt, set_out (Some []) w).

(** [f.write(s)] on the file opened with mode ['a']. *)
Definition append_out (s : text) : M unit :=
  fun w => (Ok tt, set_out (Some (out_content w ++ s)) w).

(** The [with open(output_file, 'a')] block: the header, then the response.
    [f.write] takes a [str] only. *)
Definition write_record (name : text) (chunk : option Z) (response : json)
    : M unit :=
  append_out (header name chunk) ;;;
  match response with
  | JStr body => append_out body
  | _ => raise (TypeError (str "write() argument must be str"))
  end.

Section Pipeline.

Variable env : Env.

(** A blocking step: time passes, and the operator may press Stop. *)
Definition blocking_step : M unit :=
  fun w =>
    let w1 := set_clock (S (clock w)) w in
    (Ok tt,
     if user_stop env (clock w) then stop_processing_func w1 else w1).

(** ** Text extraction *)

Definition extract_text_from_pdf (e : Entry) : M text :=
  match pdf_pages (entry_data e) with
  | Ok pages => ret (concat (map (fun page => page ++ [NL]) pages))
  | Raise x => emit_event (EvErrorExtracting (entry_name e) x) ;;; ret []
  end.

Definition extract_text_from_docx (e : Entry) : M text :=
  match docx_paragraphs (entry_data e) with
  | Ok paras => ret (concat (map (fun para => para ++ [NL]) paras))
  | Raise x => emit_event (EvErrorExtracting (entry_name e) x) ;;; ret []
  end.

Definition extract_text_from_file (e : Entry) : M text :=
  blocking_step ;;;
  let file_extension := lower (suffix (entry_name e)) in
  if text_eqb file_extension (str ".txt") then
    try_except (lift (read_utf8 (entry_data e))) is_UnicodeDecodeError
      (fun _ =>
         try_except (lift (read_latin1 (entry_data e))) any_Exception
           (fun x =>
              emit_event (EvErrorExtracting (entry_name e) x) ;;; ret []))
  else if text_eqb file_extension (str ".pdf") then
    extract_text_from_pdf e
  else if text_in file_extension [str ".docx"; str ".doc"] then
    extract_text_from_docx e
  else
    emit_event (EvUnsupportedFileType file_extension) ;;; ret [].

(** ** The inference client *)

(** [dict[key]] on the value [response.json()] returned. *)
Fixpoint lookup (key : text) (fields : list (text * json)) : option json :=
  match fields with
  | [] => None
  | (k, v) :: rest => if text_eqb k key then Some v else lookup key rest
  end.

Definition subscript (j : json) (key : text) : result json :=
  match j with
  | JObj fields =>
      match lookup key fields with
      | Some v => Ok v
      | None => Raise (KeyError key)
      end
  | _ => Raise (TypeError (str "indices must be integers"))
  end.

(** [response.raise_for_status()] *)
Definition raise_for_status (status : Z) (reason url : text) : result unit :=
  if ((400 <=? status) && (status <? 500))%Z then
    Raise (RequestException
             (py_str_int status ++ str " Client Error: " ++ reason
              ++ str " for url: " ++ url))
  else if ((500 <=? status) && (status <? 600))%Z then
    Raise (RequestException
             (py_str_int status ++ str " Server Error: " ++ reason
              ++ str " for url: " ++ url))
  else Ok tt.

(** [response.json()]: [requests] raises its own [JSONDecodeError], a
    [RequestException], on a body that is not JSON. *)
Definition response_json (body : http_body) : result json :=
  match body with
  | NotJson msg => Raise (RequestException msg)
  | Json j => Ok j
  end.

(** [requests.post(...)]: the request leaves, the call blocks, and the
    endpoint's answer comes back. *)
Definition requests_post (r : Request) : M http_outcome :=
  fun w =>
    let answer := endpoint env (length (requests w)) r in
    match blocking_step (add_request r w) with
    | (_, w') => (Ok answer, w')
    end.

Definition build_request (t prompt url model : text) (temperature : Q)
    (api_key : option text) : Request :=
  let headers := [(str "Content-Type", str "application/json")] in
  let headers :=
    match api_key with
    | Some ((_ :: _) as key) =>
        headers ++ [(str "Authorization", str "Bearer " ++ key)]
    | _ => headers
    end in
  let data :=
    mkData model (prompt ++ [NL; NL] ++ str "Text: " ++ t) false
      temperature 20480 in
  mkRequest (url ++ str "/api/generate") headers data.

Definition process_text_with_ollama (t prompt url model : text)
    (temperature : Q) (api_key : option text) : M json :=
  let r := build_request t prompt url model temperature api_key in
  try_except
    (answer <- requests_post r ;;
     match answer with
     | TransportError msg => raise (RequestException msg)
     | HttpResponse status reason body =>
         _ <- lift (raise_for_status status reason (req_url r)) ;;
         j <- lift (response_json body) ;;
         lift (subscript j (str "response"))
     end)
    is_RequestException
    (fun e => ret (JStr (str "Error processing chunk: " ++ exn_str e))).

End Pipeline.

(** ** Configuration *)

(** [int(s)] on a [str], as CPython computes it; [None] is [ValueError].

    [_PyUnicode_TransformDecimalAndSpaceToASCII] first rewrites the string:
    a code point below 127 stays, any other white space becomes a space, any
    other Unicode decimal digit becomes the ASCII digit of its value, and
    any other character becomes a question mark, which nothing accepts.
    [PyLong_FromString] then reads, in base 10, ASCII white space, an
    optional sign, digits with single underscores between them and ASCII
    white space up to the end, and refuses more than 4300 digits (the
    default of [sys.int_max_str_digits]). *)

(** The digit zero of every run of Unicode decimal digits, each followed by
    its digits one to nine (Unicode 14.0, the table of CPython 3.11). *)
Definition decimal_zeros : list N :=
  [48; 1632; 1776; 1984; 2406; 2534; 2662; 2790; 2918; 3046; 3174; 3302;
   3430; 3558; 3664; 3792; 3872; 4160; 4240; 6112; 6160; 6470; 6608; 6784;
   6800; 6992; 7088; 7232; 7248; 42528; 43216; 43264; 43472; 43504; 43600;
   44016; 65296; 66720; 68912; 69734; 69872; 69942; 70096; 70384; 70736;
   70864; 71248; 71360; 71472; 71904; 72016; 72784; 73040; 73120; 92768;
   92864; 93008; 120782; 120792; 120802; 120812; 120822; 123200; 123632;
   125264; 130032]%N.

(** [Py_UNICODE_TODECIMAL] *)
Definition to_decimal (c : char) : option N :=
  match find (fun z => (z <=? c) && (c <=? z + 9))%N decimal_zeros with
  | Some z => Some (c - z)%N
  | None => None
  end.

Definition transform_char (c : char) : char :=
  if (c <? 127)%N then c
  else if isspace c then SP
  else
    match to_decimal c with
    | Some d => (48 + d)%N
    | None => 63%N
    end.

(** [Py_ISSPACE] *)
Definition is_ascii_space (c : char) : bool :=
  ((9 <=? c) && (c <=? 13) || (c =? 32))%N.

Fixpoint skip_ascii_space (s : text) : text :=
  match s with
  | [] => []
  | c :: s' => if is_ascii_space c then skip_ascii_space s' else s
  end.

(** [_PyLong_DigitValue] below base 10. *)
Definition digit_val (c : char) : option Z :=
  if ((48 <=? c) && (c <=? 57))%N then Some (Z.of_N (c - 48)) else None.

(** The scan of [long_from_string_base] over digits and underscores: the
    value read, the number of digits and what follows them.  [None]: two
    underscores in a row, or an underscore at the end. *)
Fixpoint scan_digits (acc digits : Z) (prev_underscore : bool) (s : text)
    : option (Z * Z * text) :=
  match s with
  | [] => if prev_underscore then None else Some (acc, digits, [])
  | c :: s' =>
      if (c =? 95)%N then
        (if prev_underscore then None else scan_digits acc digits true s')
      else
        match digit_val c with
        | Some d => scan_digits (10 * acc + d)%Z (digits + 1)%Z false s'
        | None =>
            if prev_underscore then None else Some (acc, digits, s)
        end
  end.

Definition long_from_string_base (s : text) : option Z :=
  match s with
  | [] => None
  | c :: _ =>
      if (c =? 95)%N then None
      else
        match scan_digits 0 0 false s with
        | None => None
        | Some (value, digits, rest) =>
            if (digits =? 0)%Z then None
            else if negb (forallb is_ascii_space rest) then None
            else if (4300 <? digits)%Z then None
            else Some value
        end
  end.

Definition PyLong_FromString (s : text) : option Z :=
  match skip_ascii_space s with
  | [] => None
  | c :: rest =>
      if (c =? 43)%N then long_from_string_base rest
      else if (c =? 45)%N then option_map Z.opp (long_from_string_base rest)
      else long_from_string_base (c :: rest)
  end.

Definition py_int (s : text) : option Z :=
  PyLong_FromString (map transform_char s).

(** The namespace [parser.parse_args()] returns. *)
Record Args := mkArgs {
  directory : text;
  prompt : text;
  url : text;
  api_key : option text;
  max_words : Z;
  model : text;
  temperature : Q
}.

(** The command line, by argument: [None] is an argument that is not given.
    [--temperature] is given by what [float] makes of it ([Some None]: it
    raises [ValueError]). *)
Record CommandLine := mkCommandLine {
  cl_directory : option text;
  cl_prompt : option text;
  cl_url : option text;
  cl_api_key : option text;
  cl_max_words : option text;
  cl_model : option text;
  cl_temperature : option (option Q)
}.

(** Lines 106-118: three required positionals, [--max-words] of type [int]
    with default 3000, [--temperature] of type [float] with default 0.6.
    [None] is the parser's usage error, which ends the process. *)
Definition parse_args (c : CommandLine) : option Args :=
  match cl_directory c, cl_prompt c, cl_url c with
  | Some d, Some p, Some u =>
      let mw :=
        match cl_max_words c with
        | None => Some 3000%Z
        | Some s => py_int s
        end in
      let temp :=
        match cl_temperature c with
        | None => Some (6 # 10)%Q
        | Some t => t
        end in
      let mdl :=
        match cl_model c with
        | None => str "deepseek-r1:32b-qwen-distill-q8_0"
        | Some m => m
        end in
      match mw, temp with
      | Some m, Some t => Some (mkArgs d p u (cl_api_key c) m mdl t)
      | _, _ => None
      end
  | _, _, _ => None
  end.

(** The entry fields of the GUI when Start is pressed. *)
Record Fields := mkFields {
  directory_var : text;
  prompt_text : text;
  max_words_var : text;
  model_var : text;
  api_url_var : text
}.

Definition is_empty (s : text) : bool :=
  match s with
  | [] => true
  | _ => false
  end.

Section Drivers.

Variable env : Env.

(** ** The command-line driver *)

(** Lines 159-169: the loop over [enumerate(chunk_text(...), 1)]. *)
Fixpoint main_chunk_loop (args : Args) (name : text) (i : Z)
    (chunks : list text) : M unit :=
  match chunks with
  | [] => ret tt
  | chunk :: rest =>
      response <- process_text_with_ollama env chunk (prompt args)
                    (url args) (model args) (temperature args)
                    (api_key args) ;;
      emit_event (EvResponse name (Some i) response) ;;;
      write_record name (Some i) response ;;;
      main_chunk_loop args name (i + 1) rest
  end.

(** Lines 133-169: the body of the [try] block. *)
Definition main_file_body (args : Args) (file_path : Entry) : M unit :=
  let name := entry_name file_path in
  t <- extract_text_from_file env file_path ;;
  if is_empty t then emit_event (EvNoTextExtracted name)
  else
    let t := normalize t in
    let word_count := word_count t in
    if (word_count <=? max_words args)%Z then
      response <- process_text_with_ollama env t (prompt args) (url args)
                    (model args) (temperature args) (api_key args) ;;
      emit_event (EvResponse name None response) ;;;
      write_record name None response
    else
      main_chunk_loop args name 1 (chunk_text t (max_words args)).

(** Lines 125-172: the loop over the directory. *)
Fixpoint main_file_loop (args : Args) (files : list Entry) : M unit :=
  match files with
  | [] => ret tt
  | file_path :: rest =>
      (if selected (entry_name file_path) then
         emit_event (EvProcessingFile (entry_name file_path)) ;;;
         try_except (main_file_body args file_path) any_Exception
           (fun e => emit_event (EvErrorProcessing (entry_name file_path) e))
       else ret tt) ;;;
      main_file_loop args rest
  end.

(** Lines 120-172: [main] once the arguments are parsed. *)
Definition main_run (args : Args) : M unit :=
  touch (isdir env (directory args)) ;;;
  main_file_loop args (glob_star_dot_star (listdir env (directory args))).

Definition main (c : CommandLine) : M unit :=
  match parse_args c with
  | None => emit_event EvUsageError
  | Some args => main_run args
  end.

(** ** The GUI driver *)

Definition gui_temperature : Q := (6 # 10)%Q.
Definition gui_api_key : option text := None.

(** Lines 254-264: the loop over the chunks, with its check of the flag. *)
Fixpoint process_documents_chunk_loop (prompt model api_url : text)
    (name : text) (i : Z) (chunks : list text) : M unit :=
  match chunks with
  | [] => ret tt
  | chunk :: rest =>
      stop <- get_stop ;;
      if stop then emit_event EvInterrupted
      else
        response <- process_text_with_ollama env chunk prompt api_url
                      model gui_temperature gui_api_key ;;
        emit_event (EvResponse name (Some i) response) ;;;
        write_record name (Some i) response ;;;
        process_documents_chunk_loop prompt model api_url name
          (i + 1) rest
  end.

(** Lines 236-264: the body of the [try] block. *)
Definition process_documents_file_body (prompt : text) (max_words : Z)
    (model api_url : text) (file_path : Entry) : M unit :=
  let name := entry_name file_path in
  t <- extract_text_from_file env file_path ;;
  if is_empty t then emit_event (EvNoTextExtracted name)
  else
    let t := normalize t in
    let word_count := word_count t in
    if (word_count <=? max_words)%Z then
      response <- process_text_with_ollama env t prompt api_url model
                    gui_temperature gui_api_key ;;
      emit_event (EvResponse name None response) ;;;
      write_record name None response
    else
      process_documents_chunk_loop prompt model api_url name 1
        (chunk_text t max_words).

(** Lines 224-268: the loop over the directory, with its check of the
    flag. *)
Fixpoint process_documents_file_loop (prompt : text) (max_words : Z)
    (model api_url : text) (files : list Entry) : M unit :=
  match files with
  | [] => ret tt
  | file_path :: rest =>
      stop <- get_stop ;;
      if stop then emit_event EvInterrupted
      else
        (if selected (entry_name file_path) then
           emit_event (EvProcessingFile (entry_name file_path)) ;;;
           try_except
             (process_documents_file_body prompt max_words model api_url
                file_path)
             any_Exception
             (fun e =>
                emit_event (EvErrorProcessing (entry_name file_path) e))
         else ret tt) ;;;
        process_documents_file_loop prompt max_words model api_url rest
  end.

Definition process_documents (target_dir prompt : text) (max_words : Z)
    (model api_url : text) : M unit :=
  process_documents_file_loop prompt max_words model api_url
    (glob_star_dot_star (listdir env target_dir)) ;;;
  emit_event EvProcessingComplete ;;;
  (fun w => (Ok tt, set_buttons true false w)).

(** Lines 182-212: what [start_processing] does before it starts the worker
    thread.  [Some] carries the thread's arguments; [None] is a return
    without a thread. *)
Definition start_processing (f : Fields)
    : M (option (text * text * Z * text * text)) :=
  let target_dir := directory_var f in
  let prompt := strip (prompt_text f) in
  match py_int (max_words_var f) with
  | None =>
      emit_event (EvShowError (str "Input Error")
                    (str "Max Words must be an integer.")) ;;;
      ret None
  | Some max_words =>
      let model := model_var f in
      let api_url := api_url_var f in
      if is_empty target_dir || is_empty prompt || is_empty model
         || is_empty api_url
      then
        emit_event (EvShowError (str "Input Error")
                      (str "Please fill in all required fields.")) ;;;
        ret None
      else
        (fun w => (Ok tt, set_buttons false true (set_stop false w))) ;;;
        emit_event EvOutputCleared ;;;
        touch (isdir env target_dir) ;;;
        truncate_out ;;;
        ret (Some (target_dir, prompt, max_words, model, api_url))
  end.

(** Pressing Start: [start_processing], then the worker thread's
    [process_documents].  The operator's Stop presses during the run come
    from [user_stop]. *)
Definition gui_run (f : Fields) : M unit :=
  started <- start_processing f ;;
  match started with
  | None => ret tt
  | Some (target_dir, prompt, max_words, model, api_url) =>
      process_documents target_dir prompt max_words model api_url
  end.

End Drivers.

(** * Definitions for the statements

    Predicates and functions the properties are stated with, the selection
    and the dispatch in the specification's words, and the concrete inputs
    of the examples. *)

Unset Implicit Arguments.

(** A text without whitespace, a run of whitespace, and a word: a text
    without whitespace that is not empty. *)
Definition nospace (w : text) : Prop := Forall (fun c => isspace c = false) w.

Definition allspace (s : text) : Prop := Forall (fun c => isspace c = true) s.

Definition wordlike (w : text) : Prop := w <> [] /\ nospace w.

(** Two whitespace characters in a row somewhere in [s]. *)
Fixpoint adjacent_ws (s : text) : bool :=
  match s with
  | [] => false
  | c1 :: s' =>
      match s' with
      | [] => false
      | c2 :: _ => (isspace c1 && isspace c2) || adjacent_ws s'
      end
  end.

(** The word [w], then each run of whitespace of [rest] with the word that
    follows it. *)
Fixpoint spaced (w : text) (rest : list (text * text)) : text :=
  match rest with
  | [] => w
  | (run, w') :: rest' => w ++ run ++ spaced w' rest'
  end.

(** The groups of words behind the chunks: [chunk_loop] before the
    [' '.join]. *)
Fixpoint group_loop (max_words : Z) (words : list text)
    (current_chunk : list text) (current_count : Z) : list (list text) :=
  match words with
  | [] =>
      match current_chunk with
      | [] => []
      | _ => [current_chunk]
      end
  | word :: words' =>
      let current_chunk := current_chunk ++ [word] in
      let current_count := (current_count + 1)%Z in
      if (current_count >=? max_words)%Z
      then current_chunk :: group_loop max_words words' [] 0
      else group_loop max_words words' current_chunk current_count
  end.

(** The loop invariant of [chunk_text]: the counter is the length of the
    buffer, and the buffer is not full. *)
Definition buffer_ok (m : Z) (cc : list text) (cnt : Z) : Prop :=
  cnt = Z.of_nat (length cc) /\ (cnt < m)%Z.

(** The [try] block of [process_text_with_ollama] once the answer is in. *)
Definition answer_value (answer : http_outcome) (r : Request) : result json :=
  match answer with
  | TransportError msg => Raise (RequestException msg)
  | HttpResponse status reason body =>
      match raise_for_status status reason (req_url r) with
      | Raise e => Raise e
      | Ok _ =>
          match response_json body with
          | Raise e => Raise e
          | Ok j => subscript j (str "response")
          end
      end
  end.

(** The whole call: the [except] clause turns a [RequestException] into the
    error string. *)
Definition client_value (answer : http_outcome) (r : Request) : result json :=
  match answer_value answer r with
  | Ok v => Ok v
  | Raise e =>
      if is_RequestException e
      then Ok (JStr (str "Error processing chunk: " ++ exn_str e))
      else Raise e
  end.

(** The world once a request has left and its answer is in. *)
Definition after_call (env : Env) (r : Request) (w : World) : World :=
  snd (blocking_step env (add_request r w)).

(** The world once a record has been written. *)
Definition after_record (name : text) (chunk : option Z) (response : json)
    (body : text) (w : World) : World :=
  set_out (Some (out_content w ++ record name chunk body))
    (add_event (EvResponse name chunk response) w).

(** [m] preserves [R]: whatever the world, [R] relates it to the world [m]
    leaves. *)
Definition steps (R : World -> World -> Prop) {A} (m : M A) : Prop :=
  forall w, R w (snd (m w)).

(** [grows P w w']: from [w] to [w'] the output file, the request trace and
    the event log were only appended to, every new event satisfies [P], a
    set flag stayed set, and time did not go back. *)
Definition grows (P : Event -> Prop) (w w' : World) : Prop :=
  (exists a, out_content w' = out_content w ++ a)
  /\ (exists rs, requests w' = requests w ++ rs)
  /\ (exists evs, events w' = events w ++ evs /\ Forall P evs)
  /\ (stop_processing w = true -> stop_processing w' = true)
  /\ clock w <= clock w'.

(** An event other than the announcement of a file. *)
Definition quiet (e : Event) : Prop :=
  match e with
  | EvProcessingFile _ => False
  | _ => True
  end.

(** No condition on the new events. *)
Definition any_event (e : Event) : Prop := True.

(** When the operator never presses Stop, the flag keeps its value. *)
Definition same_flag (w w' : World) : Prop :=
  stop_processing w' = stop_processing w.

Definition never_stopped (env : Env) : Prop :=
  forall n, user_stop env n = false.

Definition plain_file (t : text) : FileData :=
  mkFileData (Ok t) (Ok t) (Raise (OtherException (str "not a PDF")))
    (Raise (OtherException (str "not a Word document"))).

Definition answer_ok (body : text) : http_outcome :=
  HttpResponse 200 (str "OK") (Json (JObj [(str "response", JStr body)])).

(** A directory with [a.txt] ("hello") and an endpoint that answers
    "fine". *)
Definition env_hello : Env :=
  mkEnv (fun _ => [File (str "a.txt") (plain_file (str "hello"));
                   File (str "out.txt") (plain_file [])])
    (fun _ _ => answer_ok (str "fine"))
    (fun _ => false)
    (fun _ => true).

Definition args_hello : Args :=
  mkArgs (str "docs") (str "Summarise") (str "http://localhost:11434") None
    3000 (str "m") (6 # 10)%Q.

Definition fields_hello : Fields :=
  mkFields (str "docs") (str "Summarise") (str "3000") (str "m")
    (str "http://localhost:11434").

(** The world a second run starts in: [out.txt] holds the record of a first
    run. *)
Definition world_after_first_run : World :=
  mkWorld (Some (record (str "a.txt") None (str "old"))) [] [] false 0
    true false.

(** An endpoint that answers 200 with a JSON object that has no
    ["response"] field. *)
Definition env_no_response_field : Env :=
  mkEnv (fun _ => [File (str "a.txt") (plain_file (str "one two three"))])
    (fun _ _ =>
       HttpResponse 200 (str "OK")
         (Json (JObj [(str "error", JStr (str "model not found"))])))
    (fun _ => false)
    (fun _ => true).

Definition args_one_word : Args :=
  mkArgs (str "docs") (str "Summarise") (str "http://localhost:11434") None
    1 (str "m") (6 # 10)%Q.

Definition world_start : World := mkWorld None [] [] false 0 true false.

Definition fields_zero : Fields :=
  mkFields (str "docs") (str "Summarise") (str "0") (str "m")
    (str "http://localhost:11434").

Definition command_line_minus_five : CommandLine :=
  mkCommandLine (Some (str "docs")) (Some (str "Summarise"))
    (Some (str "http://localhost:11434")) None (Some (str "-5")) None None.

(** A directory with [a.txt] ("one two") and an endpoint that answers
    "fine". *)
Definition env_two_words : Env :=
  mkEnv (fun _ => [File (str "a.txt") (plain_file (str "one two"))])
    (fun _ _ => answer_ok (str "fine"))
    (fun _ => false)
    (fun _ => true).

(** The request the CLI sends for a payload. *)
Definition request_for (args : Args) (t : text) : Request :=
  build_request t (prompt args) (url args) (model args) (temperature args)
    (api_key args).

(** The GUI's parameters as a namespace of the CLI. *)
Definition gui_args (target_dir p : text) (mw : Z) (m u : text) : Args :=
  mkArgs target_dir p u gui_api_key mw m gui_temperature.



(** From [w1] to [w'], the text [t] went out as one unit: one request, and,
    when the client returns a string, one record without a chunk index. *)
Definition sent_whole (env : Env) (args : Args) (name t : text)
    (w1 w' : World) : Prop :=
  requests w' = requests w1 ++ [request_for args t]
  /\ forall body,
       client_value (endpoint env (length (requests w1)) (request_for args t))
         (request_for args t) = Ok (JStr body) ->
       out_content w' = out_content w1 ++ record name None body.



(** Printing the response and writing its record. *)
Definition write_step (name : text) (chunk : option Z) (response : json)
    : M unit :=
  emit_event (EvResponse name chunk response) ;;;
  write_record name chunk response.

(** The single-shot branch of the two bodies. *)
Definition single_shot (env : Env) (args : Args) (name t : text) : M unit :=
  response <- process_text_with_ollama env t (prompt args) (url args)
                (model args) (temperature args) (api_key args) ;;
  emit_event (EvResponse name None response) ;;;
  write_record name None response.

Definition file_hello : Entry :=
  File (str "a.txt") (plain_file (str "hello")).







Definition args_minus_one : Args :=
  mkArgs (str "docs") (str "Summarise") (str "http://localhost:11434") None
    (-1) (str "m") (6 # 10)%Q.

(** A directory with [blank.txt], which holds a space and a newline. *)
Definition env_blank : Env :=
  mkEnv (fun _ => [File (str "blank.txt") (plain_file [SP; NL])])
    (fun _ _ => answer_ok (str "fine"))
    (fun _ => false)
    (fun _ => true).

(** The selection in the spec's words: an extension that is one of the four
    supported ones up to the case of its letters, and a name other than
    [out.txt]. *)
Definition is_upper (c : char) : Prop := (65 <= c <= 90)%N.

Definition same_letter (c d : char) : Prop :=
  c = d \/ (is_upper c /\ d = (c + 32)%N) \/ (is_upper d /\ c = (d + 32)%N).

Definition caseless_eq (a b : text) : Prop := Forall2 same_letter a b.

(** [ext] is the extension of [name]: what follows the stem, from the last
    dot on, with something before the dot and something after it. *)
Definition has_extension (name ext : text) : Prop :=
  exists stem x,
    name = stem ++ DOT :: x /\ stem <> [] /\ x <> [] /\ ~ In DOT x
    /\ ext = DOT :: x.

Definition spec_selected (name : text) : Prop :=
  name <> str "out.txt"
  /\ exists ext,
       has_extension name ext
       /\ (caseless_eq ext (str ".txt") \/ caseless_eq ext (str ".pdf")
           \/ caseless_eq ext (str ".doc") \/ caseless_eq ext (str ".docx")).

(** The names of the files a run announced ("Processing file: ..."). *)
Definition announced (evs : list Event) : list text :=
  flat_map (fun e => match e with
                     | EvProcessingFile name => [name]
                     | _ => []
                     end) evs.

Definition selected_entry (e : Entry) : bool := selected (entry_name e).

(** The treatment of one directory entry by the CLI. *)
Definition main_entry (env : Env) (args : Args) (f : Entry) : M unit :=
  if selected (entry_name f) then
    emit_event (EvProcessingFile (entry_name f)) ;;;
    try_except (main_file_body env args f) any_Exception
      (fun e => emit_event (EvErrorProcessing (entry_name f) e))
  else ret tt.

(** A directory with a text file in capitals, a picture, the output file,
    a sub-directory that holds a text file, a file without extension and a
    PDF. *)
Definition env_mixed_directory : Env :=
  mkEnv (fun _ => [File (str "a.TXT") (plain_file (str "hello"));
                   File (str "photo.png") (plain_file (str "pixels"));
                   File (str "out.txt") (plain_file (str "old"));
                   Dir (str "sub.d")
                     [File (str "inner.txt") (plain_file (str "deep"))];
                   File (str "notes") (plain_file (str "plain"));
                   File (str "b.Pdf") (plain_file (str "%PDF"))])
    (fun _ _ => answer_ok (str "fine"))
    (fun _ => false)
    (fun _ => true).

(** A directory with [a.txt] and [b.txt], and an endpoint that answers 500
    to every request. *)
Definition env_http_500 : Env :=
  mkEnv (fun _ => [File (str "a.txt") (plain_file (str "hello"));
                   File (str "b.txt") (plain_file (str "world"))])
    (fun _ _ =>
       HttpResponse 500 (str "Internal Server Error") (NotJson (str "oops")))
    (fun _ => false)
    (fun _ => true).

(** A directory with [out.txt] and a picture only. *)
Definition env_nothing_to_do : Env :=
  mkEnv (fun _ => [File (str "out.txt") (plain_file (str "old"));
                   File (str "photo.png") (plain_file (str "pixels"))])
    (fun _ _ => answer_ok (str "fine"))
    (fun _ => false)
    (fun _ => true).

(** A directory with [a.txt] (three words) and [b.txt]; the operator
    presses Stop during the second blocking step of the run, which is the
    call for the first chunk of [a.txt]. *)
Definition env_stop_during_first_chunk : Env :=
  mkEnv (fun _ => [File (str "a.txt") (plain_file (str "one two three"));
                   File (str "b.txt") (plain_file (str "four"))])
    (fun _ _ => answer_ok (str "fine"))
    (fun n => Nat.eqb n 1)
    (fun _ => true).

Definition fields_one_word : Fields :=
  mkFields (str "docs") (str "Summarise") (str "1") (str "m")
    (str "http://localhost:11434").

(** The treatment of one directory entry by the GUI, once the flag is
    checked. *)
Definition process_documents_entry (env : Env) (p : text) (mw : Z)
    (m u : text) (f : Entry) : M unit :=
  if selected (entry_name f) then
    emit_event (EvProcessingFile (entry_name f)) ;;;
    try_except (process_documents_file_body env p mw m u f) any_Exception
      (fun e => emit_event (EvErrorProcessing (entry_name f) e))
  else ret tt.

(** A payload fit to send: normalised, and within the limit. *)
Definition payload_ok (max_words : Z) (t : text) : Prop :=
  normalize t = t /\ (word_count t <= max_words)%Z.


(** A target directory that does not exist. *)
Definition env_missing_directory : Env :=
  mkEnv (fun _ => []) (fun _ _ => answer_ok (str "fine")) (fun _ => false)
    (fun _ => false).

(** No request was sent from [w] to [w']. *)
Definition same_requests (w w' : World) : Prop := requests w' = requests w.

(** [out.txt] was not written from [w] to [w']. *)
Definition same_out (w w' : World) : Prop := out_txt w' = out_txt w.

(** An event other than the report of an unsupported file type. *)
Definition supported_event (e : Event) : Prop :=
  match e with
  | EvUnsupportedFileType _ => False
  | _ => True
  end.

(** A PDF of two pages. *)
Definition file_report : Entry :=
  File (str "report.PDF")
    (mkFileData (Raise (OtherException (str "binary")))
       (Raise (OtherException (str "binary")))
       (Ok [str "page one"; str "page  two"])
       (Raise (OtherException (str "not a Word document")))).

(** A directory that holds a sub-directory named [notes.txt]. *)
Definition env_directory_named_txt : Env :=
  mkEnv (fun _ => [Dir (str "notes.txt") []; file_hello])
    (fun _ _ => answer_ok (str "fine"))
    (fun _ => false)
    (fun _ => true).

(** [a] is the beginning of [b]. *)
Definition prefix_of {A} (a b : list A) : Prop := exists c, b = a ++ c.

(** Two worlds with the same [out.txt] content and the same requests. *)
Definition agree (w w0 : World) : Prop :=
  out_content w = out_content w0 /\ requests w = requests w0.

(** [w] has a part of what [w0] has. *)
Definition behind (w w0 : World) : Prop :=
  prefix_of (out_content w) (out_content w0)
  /\ prefix_of (requests w) (requests w0).

(** The same directory and endpoint, with an operator who never presses
    Stop. *)
Definition without_stops (env : Env) : Env :=
  mkEnv (listdir env) (endpoint env) (fun _ => false) (isdir env).

(** A PDF of two pages without text. *)
Definition file_scan : Entry :=
  File (str "scan.pdf")
    (mkFileData (Raise (OtherException (str "binary")))
       (Raise (OtherException (str "binary")))
       (Ok [[]; [SP]])
       (Raise (OtherException (str "not a Word document")))).

(** An endpoint whose ["response"] is a number. *)
Definition env_number_response : Env :=
  mkEnv (fun _ => [file_hello])
    (fun _ _ =>
       HttpResponse 200 (str "OK")
         (Json (JObj [(str "response", JNum (str "42"))])))
    (fun _ => false)
    (fun _ => true).



(** * Properties *)

(** ** Words, whitespace and [split] *)

Lemma isspace_SP : isspace SP = true.
Proof. reflexivity. Qed.

Lemma emit_cons (cur : text) (l : list text) :
  cur <> [] -> emit cur l = cur :: l.
Proof. destruct cur; [congruence | reflexivity]. Qed.

Lemma split_go_nospace (w : text) :
  nospace w -> forall cur s, split_go cur (w ++ s) = split_go (cur ++ w) s.
Proof.
  induction 1 as [| c w Hc Hw IH]; intros cur s; simpl.
  - now rewrite app_nil_r.
  - rewrite Hc, IH, <- app_assoc. reflexivity.
Qed.

Lemma split_go_allspace (r : text) :
  allspace r -> forall s, split_go [] (r ++ s) = split_go [] s.
Proof.
  induction 1 as [| c r Hc Hr IH]; intros s; simpl; [reflexivity |].
  rewrite Hc. simpl. apply IH.
Qed.

(** A word, then a whitespace character: the word is cut there. *)
Lemma split_word_then_space (w : text) (c : char) (s : text) :
  wordlike w -> isspace c = true ->
  split (w ++ c :: s) = w :: split s.
Proof.
  intros [Hne Hw] Hc. unfold split.
  rewrite split_go_nospace by assumption. simpl. rewrite Hc.
  now apply emit_cons.
Qed.

Lemma split_word (w : text) : wordlike w -> split w = [w].
Proof.
  intros [Hne Hw]. unfold split.
  rewrite <- (app_nil_r w) at 1.
  rewrite split_go_nospace by assumption. simpl. now apply emit_cons.
Qed.

Lemma split_go_wordlike (s : text) :
  forall cur, nospace cur -> Forall wordlike (split_go cur s).
Proof.
  induction s as [| c s IH]; intros cur Hcur; simpl.
  - destruct cur; simpl; [constructor |].
    constructor; [split; [discriminate | assumption] | constructor].
  - destruct (isspace c) eqn:Hc.
    + destruct cur; simpl.
      * apply IH. constructor.
      * constructor; [split; [discriminate | assumption] |].
        apply IH. constructor.
    + apply IH. apply Forall_app. split; [assumption |].
      constructor; [assumption | constructor].
Qed.

Lemma split_wordlike (s : text) : Forall wordlike (split s).
Proof. apply split_go_wordlike. constructor. Qed.

Lemma join_cons (sep p : text) (rest : list text) :
  rest <> [] -> join sep (p :: rest) = p ++ sep ++ join sep rest.
Proof. destruct rest; [congruence | reflexivity]. Qed.

Lemma join_app (sep : text) (a b : list text) :
  a <> [] -> b <> [] ->
  join sep (a ++ b) = join sep a ++ sep ++ join sep b.
Proof.
  induction a as [| p a IH]; intros Ha Hb; [congruence |].
  destruct a as [| q a].
  - simpl app. now rewrite join_cons.
  - change ((p :: q :: a) ++ b) with (p :: (q :: a) ++ b).
    rewrite join_cons by discriminate.
    rewrite IH by (discriminate || assumption).
    rewrite (join_cons sep p (q :: a)) by discriminate.
    now rewrite <- !app_assoc.
Qed.

(** [split] undoes [' '.join] on a list of words. *)
Lemma split_join (ws : list text) :
  Forall wordlike ws -> split (join [SP] ws) = ws.
Proof.
  induction 1 as [| w ws Hw Hws IH]; [reflexivity |].
  destruct ws as [| w' ws].
  - simpl. now apply split_word.
  - rewrite join_cons by discriminate.
    change ([SP] ++ join [SP] (w' :: ws)) with (SP :: join [SP] (w' :: ws)).
    rewrite split_word_then_space by (assumption || reflexivity).
    now rewrite IH.
Qed.

(** ** [strip] *)

Lemma lstrip_allspace (r : text) :
  allspace r -> forall s, lstrip (r ++ s) = lstrip s.
Proof.
  induction 1 as [| c r Hc Hr IH]; intros s; simpl; [reflexivity |].
  now rewrite Hc.
Qed.

Lemma lstrip_head (c : char) (s : text) :
  isspace c = false -> lstrip (c :: s) = c :: s.
Proof. intros Hc. simpl. now rewrite Hc. Qed.

Lemma rstrip_snoc_space (s : text) (c : char) :
  isspace c = true -> rstrip (s ++ [c]) = rstrip s.
Proof.
  intros Hc. unfold rstrip. rewrite rev_app_distr. simpl. now rewrite Hc.
Qed.

Lemma rstrip_snoc_nospace (s : text) (c : char) :
  isspace c = false -> rstrip (s ++ [c]) = s ++ [c].
Proof.
  intros Hc. unfold rstrip. rewrite rev_app_distr. simpl. rewrite Hc.
  simpl. now rewrite rev_involutive.
Qed.

Lemma rstrip_nil : rstrip [] = [].
Proof. reflexivity. Qed.

(** [rstrip] looks at the end only. *)
Lemma rstrip_app (a b : text) :
  rstrip (a ++ b) =
  match rstrip b with
  | [] => rstrip a
  | _ => a ++ rstrip b
  end.
Proof.
  induction b as [| c b IH] using rev_ind.
  - now rewrite app_nil_r.
  - rewrite app_assoc. destruct (isspace c) eqn:Hc.
    + rewrite !rstrip_snoc_space by assumption. exact IH.
    + rewrite !rstrip_snoc_nospace by assumption.
      rewrite <- app_assoc. destruct b; reflexivity.
Qed.

Lemma rstrip_nospace (w : text) : nospace w -> rstrip w = w.
Proof.
  induction w as [| c w IH] using rev_ind; intros Hw; [reflexivity |].
  apply Forall_app in Hw. destruct Hw as [_ Hc].
  apply rstrip_snoc_nospace. now inversion Hc.
Qed.

(** ** [normalize] is [' '.join(text.split())] *)

Lemma lstrip_sub_ws (s : text) : lstrip (sub_ws false s) = sub_ws true s.
Proof.
  assert (H : forall s, lstrip (sub_ws true s) = sub_ws true s).
  { clear s. induction s as [| c s IH]; simpl; [reflexivity |].
    destruct (isspace c) eqn:Hc; [exact IH |]. simpl. now rewrite Hc. }
  destruct s as [| c s]; simpl; [reflexivity |].
  destruct (isspace c) eqn:Hc.
  - simpl. apply H.
  - simpl. now rewrite Hc.
Qed.

Lemma rstrip_sub_ws (s : text) :
  forall cur, nospace cur ->
  rstrip (cur ++ sub_ws (is_empty cur) s) = join [SP] (split_go cur s).
Proof.
  induction s as [| c s IH]; intros cur Hcur.
  - simpl. rewrite app_nil_r, rstrip_nospace by assumption.
    destruct cur; reflexivity.
  - simpl. destruct (isspace c) eqn:Hc.
    + specialize (IH [] (Forall_nil _)). simpl in IH.
      destruct cur as [| d cur]; simpl is_empty; cbv iota.
      * exact IH.
      * change (emit (d :: cur) (split_go [] s))
          with ((d :: cur) :: split_go [] s).
        change ((d :: cur) ++ SP :: sub_ws true s)
          with ((d :: cur) ++ [SP] ++ sub_ws true s).
        rewrite app_assoc, rstrip_app, IH.
        destruct (split_go [] s) as [| w ws] eqn:Hs.
        -- simpl join. rewrite rstrip_snoc_space by reflexivity.
           now apply rstrip_nospace.
        -- change (join [SP] ((d :: cur) :: w :: ws))
             with ((d :: cur) ++ [SP] ++ join [SP] (w :: ws)).
           pose proof (split_go_wordlike s [] (Forall_nil _)) as Hwl.
           rewrite Hs in Hwl. inversion Hwl as [| ? ? [Hne _] _]; subst.
           destruct (join [SP] (w :: ws)) eqn:Hj.
           ++ destruct ws; simpl in Hj; [congruence |].
              destruct w; [congruence | discriminate].
           ++ now rewrite <- app_assoc.
    + assert (Hcur' : nospace (cur ++ [c])).
      { apply Forall_app. split; [assumption |].
        constructor; [assumption | constructor]. }
      specialize (IH (cur ++ [c]) Hcur').
      replace (is_empty (cur ++ [c])) with false in IH
        by (destruct cur; reflexivity).
      rewrite <- app_assoc in IH. simpl in IH.
      destruct cur; exact IH.
Qed.

Lemma normalize_join_split (t : text) : normalize t = join [SP] (split t).
Proof.
  unfold normalize, strip, re_sub_ws. rewrite lstrip_sub_ws.
  exact (rstrip_sub_ws t [] (Forall_nil _)).
Qed.

Lemma split_normalize (t : text) : split (normalize t) = split t.
Proof. rewrite normalize_join_split. apply split_join, split_wordlike. Qed.

Lemma word_count_normalize (t : text) :
  word_count (normalize t) = word_count t.
Proof. unfold word_count. now rewrite split_normalize. Qed.

Lemma normalize_idempotent (t : text) : normalize (normalize t) = normalize t.
Proof. now rewrite (normalize_join_split (normalize t)), split_normalize,
         <- normalize_join_split. Qed.

Lemma split_allspace (r : text) : allspace r -> split r = [].
Proof.
  intros Hr. unfold split. rewrite <- (app_nil_r r).
  now rewrite split_go_allspace.
Qed.

Lemma normalize_allspace (r : text) : allspace r -> normalize r = [].
Proof. intros Hr. now rewrite normalize_join_split, split_allspace. Qed.

Lemma In_join (c : char) (ws : list text) :
  In c (join [SP] ws) -> c = SP \/ exists w, In w ws /\ In c w.
Proof.
  induction ws as [| w ws IH]; [intros [] |].
  destruct ws as [| w' ws].
  - simpl. intros Hc. right. exists w. auto.
  - rewrite join_cons by discriminate. intros Hc.
    apply in_app_or in Hc. destruct Hc as [Hc | Hc].
    + right. exists w. split; [left; reflexivity | assumption].
    + apply in_app_or in Hc. destruct Hc as [[Hc | []] | Hc]; [now left |].
      destruct (IH Hc) as [-> | [x [Hx Hcx]]]; [now left |].
      right. exists x. split; [right; assumption | assumption].
Qed.

Lemma join_only_single_spaces (c : char) (ws : list text) :
  Forall wordlike ws -> In c (join [SP] ws) -> isspace c = true -> c = SP.
Proof.
  intros Hws Hin Hc. destruct (In_join _ _ Hin) as [-> | [w [Hw Hcw]]];
    [reflexivity |].
  rewrite Forall_forall in Hws. destruct (Hws w Hw) as [_ Hns].
  unfold nospace in Hns. rewrite Forall_forall in Hns.
  rewrite (Hns c Hcw) in Hc. discriminate.
Qed.

Lemma adjacent_ws_nospace_l (w : text) :
  nospace w -> w <> [] -> forall e s, isspace e = false ->
  adjacent_ws (w ++ SP :: e :: s) = adjacent_ws (e :: s).
Proof.
  induction 1 as [| d w Hd Hw IH]; [congruence |]. intros _ e s He.
  destruct w as [| d' w].
  - simpl. rewrite Hd, He. reflexivity.
  - change ((d :: d' :: w) ++ SP :: e :: s)
      with (d :: d' :: (w ++ SP :: e :: s)).
    change (adjacent_ws (d :: d' :: w ++ SP :: e :: s))
      with ((isspace d && isspace d')
            || adjacent_ws ((d' :: w) ++ SP :: e :: s)).
    rewrite Hd. simpl orb. apply IH; [discriminate | assumption].
Qed.

Lemma adjacent_ws_nospace (w : text) : nospace w -> adjacent_ws w = false.
Proof.
  induction 1 as [| d w Hd Hw IH]; [reflexivity |].
  destruct w; [reflexivity |].
  change (adjacent_ws (d :: c :: w))
    with ((isspace d && isspace c) || adjacent_ws (c :: w)).
  now rewrite Hd, IH.
Qed.

Lemma join_head (ws : list text) (c : char) (s : text) :
  Forall wordlike ws -> join [SP] ws = c :: s -> isspace c = false.
Proof.
  intros Hws Hj. destruct Hws as [| w ws [Hne Hw] Hws]; [discriminate |].
  destruct w as [| d w]; [congruence |].
  assert (c = d) by (destruct ws; simpl in Hj; congruence). subst.
  now inversion Hw.
Qed.

Lemma join_no_adjacent_ws (ws : list text) :
  Forall wordlike ws -> adjacent_ws (join [SP] ws) = false.
Proof.
  induction 1 as [| w ws [Hne Hw] Hws IH]; [reflexivity |].
  destruct ws as [| w' ws].
  - simpl. now apply adjacent_ws_nospace.
  - rewrite join_cons by discriminate.
    destruct (join [SP] (w' :: ws)) as [| e s] eqn:Hj.
    + inversion Hws as [| ? ? [Hne' _] _]; subst.
      destruct w'; [congruence |]. destruct ws; discriminate.
    + simpl app. rewrite adjacent_ws_nospace_l; try assumption.
      eapply join_head; eassumption.
Qed.

Lemma adjacent_ws_found (a : text) (c1 c2 : char) (b : text) :
  isspace c1 = true -> isspace c2 = true ->
  adjacent_ws (a ++ c1 :: c2 :: b) = true.
Proof.
  intros H1 H2. induction a as [| d a IH].
  - simpl. now rewrite H1, H2.
  - change ((d :: a) ++ c1 :: c2 :: b) with (d :: (a ++ c1 :: c2 :: b)).
    destruct (a ++ c1 :: c2 :: b) eqn:E; [destruct a; discriminate |].
    change (adjacent_ws (d :: c :: l))
      with ((isspace d && isspace c) || adjacent_ws (c :: l)).
    rewrite IH. apply orb_true_r.
Qed.

Lemma join_last (ws : list text) :
  Forall wordlike ws -> forall s c, join [SP] ws = s ++ [c] ->
  isspace c = false.
Proof.
  induction 1 as [| w ws [Hne Hw] Hws IH]; intros s c Hj.
  - destruct s; discriminate.
  - destruct ws as [| w' ws].
    + simpl in Hj. subst w. apply Forall_app in Hw. destruct Hw as [_ Hc].
      now inversion Hc.
    + rewrite join_cons in Hj by discriminate.
      destruct (@exists_last _ (join [SP] (w' :: ws))) as [s' [c' E]].
      { inversion Hws as [| ? ? [Hne' _] _]; subst.
        destruct w'; [congruence |]. destruct ws; discriminate. }
      rewrite E in Hj. rewrite !app_assoc in Hj.
      apply app_inj_tail in Hj. destruct Hj as [_ <-].
      eapply IH. exact E.
Qed.

Lemma split_spaced (rest : list (text * text)) :
  forall w trail,
  wordlike w ->
  Forall (fun rw => allspace (fst rw) /\ fst rw <> [] /\ wordlike (snd rw))
    rest ->
  allspace trail ->
  split (spaced w rest ++ trail) = w :: map snd rest.
Proof.
  induction rest as [| [run w'] rest IH]; intros w trail Hw Hrest Htrail.
  - simpl. destruct trail as [| c trail].
    + rewrite app_nil_r. now apply split_word.
    + inversion Htrail; subst.
      rewrite split_word_then_space by assumption.
      now rewrite split_allspace.
  - inversion Hrest as [| ? ? [Hrun [Hne Hw']] Hrest']; subst.
    simpl in *. destruct run as [| c run]; [congruence |].
    inversion Hrun; subst.
    rewrite <- !app_assoc. simpl.
    rewrite split_word_then_space by assumption.
    unfold split. rewrite split_go_allspace by assumption.
    f_equal. now apply IH.
Qed.

(** ** The chunker *)

Lemma chunk_loop_groups (m : Z) (words : list text) :
  forall cc cnt,
  chunk_loop m words cc cnt = map (join [SP]) (group_loop m words cc cnt).
Proof.
  induction words as [| w words IH]; intros cc cnt; simpl.
  - destruct cc; reflexivity.
  - destruct (cnt + 1 >=? m)%Z; simpl; now rewrite IH.
Qed.

Lemma group_loop_concat (m : Z) (words : list text) :
  forall cc cnt, concat (group_loop m words cc cnt) = cc ++ words.
Proof.
  induction words as [| w words IH]; intros cc cnt; simpl.
  - destruct cc; simpl; now rewrite ?app_nil_r.
  - destruct (cnt + 1 >=? m)%Z; simpl; rewrite IH;
      now rewrite <- ?app_assoc.
Qed.

Lemma group_loop_nonempty (m : Z) (words : list text) :
  forall cc cnt, Forall (fun g => g <> []) (group_loop m words cc cnt).
Proof.
  induction words as [| w words IH]; intros cc cnt; simpl.
  - destruct cc; constructor; [discriminate | constructor].
  - destruct (cnt + 1 >=? m)%Z; [constructor |]; try apply IH.
    destruct cc; discriminate.
Qed.

Section ChunkSizes.

Variable m : Z.
Hypothesis m_pos : (0 < m)%Z.

Lemma buffer_ok_start : buffer_ok m [] 0.
Proof. split; [reflexivity | exact m_pos]. Qed.

Lemma buffer_ok_step (cc : list text) (cnt : Z) (w : text) :
  buffer_ok m cc cnt -> (cnt + 1 >=? m)%Z = false ->
  buffer_ok m (cc ++ [w]) (cnt + 1).
Proof.
  intros [-> Hlt] Hge. split.
  - rewrite length_app. simpl. lia.
  - lia.
Qed.

Lemma buffer_full (cc : list text) (cnt : Z) (w : text) :
  buffer_ok m cc cnt -> (cnt + 1 >=? m)%Z = true ->
  Z.of_nat (length (cc ++ [w])) = m.
Proof.
  intros [-> Hlt] Hge. rewrite length_app. simpl. lia.
Qed.

Lemma group_loop_bounded (words : list text) :
  forall cc cnt, buffer_ok m cc cnt ->
  Forall (fun g => (Z.of_nat (length g) <= m)%Z) (group_loop m words cc cnt).
Proof.
  induction words as [| w words IH]; intros cc cnt Hok; simpl.
  - destruct Hok as [Hc Hlt]. destruct cc; constructor; [lia | constructor].
  - destruct (cnt + 1 >=? m)%Z eqn:Hge.
    + constructor; [| apply IH, buffer_ok_start].
      rewrite (buffer_full _ _ w Hok Hge). lia.
    + apply IH. now apply buffer_ok_step.
Qed.

Lemma group_loop_full_but_last (words : list text) :
  forall cc cnt, buffer_ok m cc cnt ->
  forall i, S i < length (group_loop m words cc cnt) ->
  Z.of_nat (length (nth i (group_loop m words cc cnt) [])) = m.
Proof.
  induction words as [| w words IH]; intros cc cnt Hok i Hi; simpl in *.
  - destruct cc; simpl in Hi; lia.
  - destruct (cnt + 1 >=? m)%Z eqn:Hge.
    + destruct i as [| i].
      * simpl. now apply buffer_full with (cnt := cnt).
      * simpl in *. apply IH; [apply buffer_ok_start | lia].
    + apply IH; [now apply buffer_ok_step | assumption].
Qed.

Lemma group_loop_length (words : list text) :
  forall cc cnt, buffer_ok m cc cnt ->
  Z.of_nat (length (group_loop m words cc cnt))
  = ((cnt + Z.of_nat (length words) + m - 1) / m)%Z.
Proof.
  induction words as [| w words IH]; intros cc cnt Hok.
  - simpl. destruct Hok as [Hc Hlt]. rewrite Z.add_0_r.
    destruct cc as [| x cc]; simpl length in *.
    + subst cnt. simpl. symmetry. apply Z.div_small. lia.
    + apply Z.div_unique with (r := (cnt - 1)%Z); simpl length; lia.
  - cbn [group_loop]. cbv zeta.
    destruct (cnt + 1 >=? m)%Z eqn:Hge.
    + change (length (w :: words)) with (S (length words)).
      change (length (?x :: ?y)) with (S (length y)).
      rewrite !Nat2Z.inj_succ, (IH [] 0%Z buffer_ok_start).
      pose proof (buffer_full _ _ w Hok Hge) as Hfull.
      rewrite length_app in Hfull. simpl in Hfull.
      destruct Hok as [Hc Hlt].
      assert (E : (cnt + Z.succ (Z.of_nat (length words)) + m - 1
                   = (0 + Z.of_nat (length words) + m - 1) + 1 * m)%Z) by lia.
      rewrite E, Z.div_add by lia. lia.
    + rewrite (IH _ _ (buffer_ok_step _ _ w Hok Hge)).
      change (length (w :: words)) with (S (length words)).
      f_equal. lia.
Qed.

End ChunkSizes.

Lemma join_concat (gs : list (list text)) :
  Forall (fun g => g <> []) gs ->
  join [SP] (map (join [SP]) gs) = join [SP] (concat gs).
Proof.
  induction 1 as [| g gs Hg Hgs IH]; [reflexivity |].
  destruct gs as [| g' gs].
  - simpl. now rewrite app_nil_r.
  - change (map (join [SP]) (g :: g' :: gs))
      with (join [SP] g :: map (join [SP]) (g' :: gs)).
    rewrite join_cons by discriminate. rewrite IH.
    change (concat (g :: g' :: gs)) with (g ++ concat (g' :: gs)).
    rewrite join_app; [reflexivity | assumption |].
    inversion Hgs; subst. simpl. destruct g'; [congruence | discriminate].
Qed.

Lemma chunk_text_groups (t : text) (m : Z) :
  chunk_text t m = map (join [SP]) (group_loop m (split t) [] 0).
Proof. apply chunk_loop_groups. Qed.

Lemma group_loop_wordlike (m : Z) (words : list text) (cc : list text)
    (cnt : Z) :
  Forall wordlike (cc ++ words) ->
  Forall (Forall wordlike) (group_loop m words cc cnt).
Proof.
  intros H. rewrite <- (group_loop_concat m words cc cnt) in H.
  induction (group_loop m words cc cnt) as [| g gs IH]; [constructor |].
  simpl in H. apply Forall_app in H. destruct H. constructor; auto.
Qed.

Lemma word_count_join (g : list text) :
  Forall wordlike g -> word_count (join [SP] g) = Z.of_nat (length g).
Proof. intros H. unfold word_count. now rewrite split_join. Qed.

Lemma chunk_text_nil_iff (t : text) (m : Z) :
  chunk_text t m = [] <-> split t = [].
Proof.
  rewrite chunk_text_groups. split; intros H.
  - apply map_eq_nil in H.
    pose proof (group_loop_concat m (split t) [] 0) as E.
    rewrite H in E. simpl in E. now symmetry.
  - now rewrite H.
Qed.

Lemma map_split_join (gs : list (list text)) :
  Forall (Forall wordlike) gs ->
  map (fun g => split (join [SP] g)) gs = gs.
Proof.
  induction 1 as [| g gs Hg Hgs IH]; [reflexivity |].
  simpl. now rewrite split_join, IH.
Qed.

(** The words of the chunks, in order, are the words of the text: a chunk
    boundary is a word boundary. *)
Lemma chunk_text_words (t : text) (m : Z) :
  concat (map split (chunk_text t m)) = split t.
Proof.
  rewrite chunk_text_groups, map_map.
  rewrite map_split_join
    by exact (group_loop_wordlike m (split t) [] 0 (split_wordlike t)).
  exact (group_loop_concat m (split t) [] 0).
Qed.

(** C1 (amended).  For every text and every [max_words > 0], the chunks of
    [chunk_text], joined with single spaces, are the whitespace-normalised
    text, [' '.join(text.split())], which is the text itself when the text
    is already normalised; the words of the chunks are the words of the
    text; every chunk has at most [max_words] words; every chunk but the
    last has exactly [max_words] words; the number of chunks is
    [ceil(word_count / max_words)]; and a text with no word, the empty text
    among them, has no chunk. *)
Theorem chunk_text_invariants (t : text) (max_words : Z) :
  (0 < max_words)%Z ->
  join [SP] (chunk_text t max_words) = normalize t
  /\ (normalize t = t -> join [SP] (chunk_text t max_words) = t)
  /\ concat (map split (chunk_text t max_words)) = split t
  /\ Forall (fun c => (word_count c <= max_words)%Z) (chunk_text t max_words)
  /\ (forall i, S i < length (chunk_text t max_words) ->
        word_count (nth i (chunk_text t max_words) []) = max_words)
  /\ Z.of_nat (length (chunk_text t max_words))
     = ((word_count t + max_words - 1) / max_words)%Z
  /\ ((Z.of_nat (length (chunk_text t max_words)) - 1) * max_words
      < word_count t
      <= Z.of_nat (length (chunk_text t max_words)) * max_words)%Z
  /\ (word_count t = 0%Z -> chunk_text t max_words = [])
  /\ chunk_text [] max_words = [].
Proof.
  intros Hm.
  pose proof (split_wordlike t) as Hws.
  pose proof (group_loop_wordlike max_words (split t) [] 0 Hws) as Hgw.
  pose proof (group_loop_bounded _ Hm (split t) _ _ (buffer_ok_start _ Hm))
    as Hb.
  pose proof (group_loop_full_but_last _ Hm (split t) _ _
                (buffer_ok_start _ Hm)) as Hf.
  pose proof (group_loop_length _ Hm (split t) _ _ (buffer_ok_start _ Hm))
    as Hl.
  assert (Hjoin : join [SP] (chunk_text t max_words) = normalize t).
  { rewrite chunk_text_groups, join_concat by apply group_loop_nonempty.
    rewrite group_loop_concat. simpl. now rewrite normalize_join_split. }
  assert (Hlen : Z.of_nat (length (chunk_text t max_words))
                 = ((word_count t + max_words - 1) / max_words)%Z).
  { rewrite chunk_text_groups, length_map, Hl. unfold word_count.
    f_equal; lia. }
  split; [exact Hjoin |].
  split; [intros E; now rewrite Hjoin |].
  split; [apply chunk_text_words |].
  split.
  { rewrite chunk_text_groups. apply Forall_map.
    rewrite Forall_forall in *. intros g Hg.
    rewrite word_count_join by auto. auto. }
  split.
  { intros i Hi. rewrite chunk_text_groups in *. rewrite length_map in Hi.
    change (@nil char) with (join [SP] []). rewrite map_nth.
    rewrite word_count_join; [now apply Hf |].
    rewrite Forall_forall in Hgw. apply Hgw, nth_In. lia. }
  split; [exact Hlen |].
  split.
  { rewrite Hlen.
    pose proof (Z.div_mod (word_count t + max_words - 1) max_words) as Hd.
    pose proof (Z.mod_pos_bound (word_count t + max_words - 1) max_words Hm).
    nia. }
  split.
  - intros H0. apply chunk_text_nil_iff. unfold word_count in H0.
    destruct (split t); [reflexivity | discriminate].
  - reflexivity.
Qed.

Lemma chunk_text_invariants_witness :
  join [SP] (chunk_text (str "a  b c") 2) = normalize (str "a  b c")
  /\ Z.of_nat (length (chunk_text (str "a  b c") 2)) = 2%Z.
Proof.
  destruct (chunk_text_invariants (str "a  b c") 2 eq_refl)
    as [H1 [_ [_ [_ [_ [H2 _]]]]]].
  split; [exact H1 | exact H2].
Defined.

(** C1 as stated fails on a text that is not normalised: the chunks of
    ["a  b"] (two spaces) for one word per chunk are ["a"] and ["b"], and
    they join to ["a b"]. *)
Lemma chunk_text_join_is_not_the_input :
  (0 < 1)%Z
  /\ chunk_text (str "a  b") 1 = [str "a"; str "b"]
  /\ join [SP] (chunk_text (str "a  b") 1) <> str "a  b".
Proof.
  split; [reflexivity |]. split; [reflexivity |]. vm_compute. discriminate.
Qed.

(** ** The generator *)

Lemma gen_drain_finished (fuel : nat) (g : Gen) :
  g_finished g = true -> gen_drain (S fuel) g = Some [].
Proof. intros H. simpl. unfold gen_next. now rewrite H. Qed.

Lemma gen_drain_chunk_loop (fuel : nat) :
  forall m words cc cnt,
  S (length words) < fuel ->
  gen_drain fuel (mkGen m words cc cnt false)
  = Some (chunk_loop m words cc cnt).
Proof.
  induction fuel as [| fuel IHf]; intros m words cc cnt Hfuel; [lia |].
  cbn [gen_drain]. unfold gen_next. cbn [g_finished g_max_words g_words
    g_current_chunk g_current_count].
  revert cc cnt. induction words as [| w words IHw]; intros cc cnt.
  - simpl in *. destruct cc as [| x cc]; [reflexivity |].
    destruct fuel; [lia |]. now rewrite gen_drain_finished.
  - cbn [gen_resume chunk_loop]. cbv zeta.
    destruct (cnt + 1 >=? m)%Z.
    + rewrite IHf by (simpl in Hfuel; lia). reflexivity.
    + apply IHw. simpl in Hfuel. lia.
Qed.

(** Draining the generator object that [chunk_text] returns, by [next]
    until [StopIteration], stops after at most one call per word and two
    more, and gives the chunks of [chunk_text] in their order: the drivers'
    [for] loops run over that list. *)
Lemma gen_drain_chunk_text (t : text) (max_words : Z) (fuel : nat) :
  S (length (split t)) < fuel ->
  gen_drain fuel (gen_start t max_words) = Some (chunk_text t max_words).
Proof.
  intros H. unfold gen_start, chunk_text.
  now rewrite gen_drain_chunk_loop by assumption.
Qed.

(** ** The inference client as a function of the endpoint's answer *)

Lemma process_text_with_ollama_step (env : Env) (t p u m : text) (temp : Q)
    (k : option text) (w : World) :
  let r := build_request t p u m temp k in
  process_text_with_ollama env t p u m temp k w
  = (client_value (endpoint env (length (requests w)) r) r,
     after_call env r w).
Proof.
  intros r. unfold process_text_with_ollama, try_except, bind, requests_post,
    client_value, answer_value, after_call. fold r.
  destruct (blocking_step env (add_request r w)) as [x w1] eqn:Hb.
  cbn [snd].
  destruct (endpoint env (length (requests w)) r)
    as [msg | status reason body]; [reflexivity |].
  unfold lift.
  destruct (raise_for_status status reason (req_url r)) as [[] | e];
    [| destruct (is_RequestException e); reflexivity].
  destruct (response_json body) as [j | e];
    [| destruct (is_RequestException e); reflexivity].
  destruct (subscript j (str "response")) as [v | e];
    [reflexivity | destruct (is_RequestException e); reflexivity].
Qed.

Lemma after_call_requests (env : Env) (r : Request) (w : World) :
  requests (after_call env r w) = requests w ++ [r].
Proof.
  unfold after_call, blocking_step. cbn.
  destruct (user_stop env (clock w)); reflexivity.
Qed.

Lemma after_call_out (env : Env) (r : Request) (w : World) :
  out_txt (after_call env r w) = out_txt w.
Proof.
  unfold after_call, blocking_step. cbn.
  destruct (user_stop env (clock w)); reflexivity.
Qed.

Lemma write_record_str (name : text) (chunk : option Z) (body : text)
    (w : World) :
  (emit_event (EvResponse name chunk (JStr body)) ;;;
   write_record name chunk (JStr body)) w
  = (Ok tt, after_record name chunk (JStr body) body w).
Proof.
  unfold after_record, write_record, bind, emit_event, append_out, record,
    out_content, set_out, add_event. cbn. now rewrite app_assoc.
Qed.

(** The failures the [except] clause covers: no response, a 4xx or 5xx
    status, a body that is not JSON.  The client returns the error string. *)
Lemma client_value_transport_error (msg : text) (r : Request) :
  client_value (TransportError msg) r
  = Ok (JStr (str "Error processing chunk: " ++ msg)).
Proof. reflexivity. Qed.

Lemma client_value_bad_status (status : Z) (reason : text) (body : http_body)
    (r : Request) :
  (400 <= status < 600)%Z ->
  exists msg,
    client_value (HttpResponse status reason body) r
    = Ok (JStr (str "Error processing chunk: " ++ msg)).
Proof.
  intros Hs. unfold client_value, answer_value, raise_for_status.
  destruct ((400 <=? status) && (status <? 500))%Z eqn:E1.
  - eexists. reflexivity.
  - destruct ((500 <=? status) && (status <? 600))%Z eqn:E2.
    + eexists. reflexivity.
    + exfalso. apply andb_false_iff in E1, E2.
      rewrite !Z.leb_gt, !Z.ltb_ge in *. lia.
Qed.

Lemma client_value_not_json (status : Z) (reason msg : text) (r : Request) :
  exists msg',
    client_value (HttpResponse status reason (NotJson msg)) r
    = Ok (JStr (str "Error processing chunk: " ++ msg')).
Proof.
  unfold client_value, answer_value.
  destruct (raise_for_status status reason (req_url r)) as [[] | e] eqn:E.
  - eexists. reflexivity.
  - unfold raise_for_status in E.
    destruct ((400 <=? status) && (status <? 500))%Z;
      [inversion E; subst; eexists; reflexivity |].
    destruct ((500 <=? status) && (status <? 600))%Z;
      [inversion E; subst; eexists; reflexivity | discriminate].
Qed.

(** ** Relations every step of a run preserves *)

Section Steps.

Variable R : World -> World -> Prop.
Hypothesis R_refl : forall w, R w w.
Hypothesis R_trans : forall a b c, R a b -> R b c -> R a c.

Lemma steps_ret {A} (a : A) : steps R (ret a).
Proof. intros w. apply R_refl. Qed.

Lemma steps_raise {A} (e : exn) : steps R (@raise A e).
Proof. intros w. apply R_refl. Qed.

Lemma steps_lift {A} (r : result A) : steps R (lift r).
Proof. intros w. apply R_refl. Qed.

Lemma steps_get_stop : steps R get_stop.
Proof. intros w. apply R_refl. Qed.

Lemma steps_bind {A B} (m : M A) (k : A -> M B) :
  steps R m -> (forall a, steps R (k a)) -> steps R (bind m k).
Proof.
  intros Hm Hk w. unfold bind. specialize (Hm w).
  destruct (m w) as [[a | e] w1]; cbn [snd] in *; [| assumption].
  eapply R_trans; [exact Hm | apply Hk].
Qed.

Lemma steps_try_except {A} (m : M A) (caught : exn -> bool)
    (h : exn -> M A) :
  steps R m -> (forall e, steps R (h e)) -> steps R (try_except m caught h).
Proof.
  intros Hm Hh w. unfold try_except. specialize (Hm w).
  destruct (m w) as [[a | e] w1]; cbn [snd] in *; [assumption |].
  destruct (caught e); cbn [snd]; [| assumption].
  eapply R_trans; [exact Hm | apply Hh].
Qed.

End Steps.

Ltac grows_split :=
  unfold grows; refine (conj _ (conj _ (conj _ (conj _ _)))).

Ltac nothing_new :=
  exists []; rewrite ?app_nil_r;
  solve [reflexivity | split; [reflexivity | constructor]].

Lemma grows_refl (P : Event -> Prop) (w : World) : grows P w w.
Proof. grows_split; try nothing_new; auto. Qed.

Lemma grows_trans (P : Event -> Prop) (a b c : World) :
  grows P a b -> grows P b c -> grows P a c.
Proof.
  intros [[x1 H1] [[r1 H2] [[e1 [H3 F1]] [H4 H5]]]]
         [[x2 G1] [[r2 G2] [[e2 [G3 F2]] [G4 G5]]]].
  grows_split.
  - exists (x1 ++ x2). now rewrite G1, H1, app_assoc.
  - exists (r1 ++ r2). now rewrite G2, H2, app_assoc.
  - exists (e1 ++ e2). split; [now rewrite G3, H3, app_assoc |].
    apply Forall_app. auto.
  - auto.
  - lia.
Qed.

Lemma grows_weaken (P Q : Event -> Prop) (w w' : World) :
  (forall e, P e -> Q e) -> grows P w w' -> grows Q w w'.
Proof.
  intros HPQ [H1 [H2 [[evs [H3 F]] [H4 H5]]]]. grows_split; auto.
  exists evs. split; [assumption |]. eapply Forall_impl; eauto.
Qed.

Lemma grows_add_event (P : Event -> Prop) (e : Event) (w : World) :
  P e -> grows P w (add_event e w).
Proof.
  intros He. grows_split; cbn; auto; try nothing_new.
  exists [e]. auto.
Qed.

Lemma grows_blocking_step (P : Event -> Prop) (env : Env) (w : World) :
  P EvStopRequested -> grows P w (snd (blocking_step env w)).
Proof.
  intros HP. unfold blocking_step. cbn [snd].
  destruct (user_stop env (clock w)); grows_split; cbn; auto;
    try nothing_new.
  exists [EvStopRequested]. auto.
Qed.

Lemma grows_add_request (P : Event -> Prop) (r : Request) (w : World) :
  grows P w (add_request r w).
Proof.
  grows_split; cbn; auto; try nothing_new. now exists [r].
Qed.

Lemma grows_append_out (P : Event -> Prop) (s : text) (w : World) :
  grows P w (snd (append_out s w)).
Proof.
  grows_split; cbn; auto; try nothing_new. now exists s.
Qed.

Lemma grows_touch (P : Event -> Prop) (d : bool) (w : World) :
  grows P w (snd (touch d w)).
Proof.
  unfold touch. destruct d; [| apply grows_refl].
  destruct (out_txt w) eqn:E; cbn [snd]; [apply grows_refl |].
  grows_split; cbn; auto; try nothing_new.
  exists []. unfold out_content. now rewrite E.
Qed.

(** The steps of the two drivers preserve a relation that is reflexive and
    transitive and that the primitive effects preserve. *)
Section DriverSteps.

Variable env : Env.
Variable R : World -> World -> Prop.
Variable P : Event -> Prop.
Hypothesis R_refl : forall w, R w w.
Hypothesis R_trans : forall a b c, R a b -> R b c -> R a c.
Hypothesis R_event : forall e w, P e -> R w (add_event e w).
Hypothesis R_request : forall r w, R w (add_request r w).
Hypothesis R_blocking : forall w, R w (snd (blocking_step env w)).
Hypothesis R_append : forall s w, R w (snd (append_out s w)).
Hypothesis P_extract : forall n e, P (EvErrorExtracting n e).
Hypothesis P_unsupported : forall x, P (EvUnsupportedFileType x).
Hypothesis P_response : forall n c r, P (EvResponse n c r).
Hypothesis P_no_text : forall n, P (EvNoTextExtracted n).
Hypothesis P_interrupted : P EvInterrupted.

Lemma s_bind {A B} (m : M A) (k : A -> M B) :
  steps R m -> (forall a, steps R (k a)) -> steps R (bind m k).
Proof. now apply steps_bind. Qed.

Lemma s_emit_event (e : Event) : P e -> steps R (emit_event e).
Proof. intros He w. now apply R_event. Qed.

Lemma s_process_text_with_ollama (t p u m : text) (temp : Q)
    (k : option text) :
  steps R (process_text_with_ollama env t p u m temp k).
Proof.
  intros w. rewrite process_text_with_ollama_step. cbn [snd].
  unfold after_call. eapply R_trans; [apply R_request | apply R_blocking].
Qed.

Lemma s_write_record (name : text) (chunk : option Z) (response : json) :
  steps R (write_record name chunk response).
Proof.
  unfold write_record. apply s_bind; [exact (R_append _) | intros _].
  destruct response;
    first [exact (R_append _) | now apply steps_raise].
Qed.

Lemma s_extract_text_from_file (e : Entry) :
  steps R (extract_text_from_file env e).
Proof.
  unfold extract_text_from_file, extract_text_from_pdf,
    extract_text_from_docx.
  apply s_bind; [exact R_blocking | intros _].
  repeat match goal with
         | |- steps _ (if ?b then _ else _) => destruct b
         | |- steps _ (match ?r with Ok _ => _ | Raise _ => _ end) =>
             destruct r
         | |- steps _ (bind _ _) => apply s_bind; [| intro]
         | |- steps _ (try_except _ _ _) =>
             apply steps_try_except; [assumption | | intro]
         | |- steps _ (ret _) => now apply steps_ret
         | |- steps _ (lift _) => now apply steps_lift
         | |- steps _ (emit_event _) => apply s_emit_event; auto
         end.
Qed.

Lemma s_main_chunk_loop (args : Args) (name : text) (chunks : list text) :
  forall i, steps R (main_chunk_loop env args name i chunks).
Proof.
  induction chunks as [| c chunks IH]; intros i; cbn [main_chunk_loop].
  - now apply steps_ret.
  - apply s_bind; [apply s_process_text_with_ollama | intros r].
    apply s_bind; [apply s_emit_event; auto | intros _].
    apply s_bind; [apply s_write_record | intros _]. apply IH.
Qed.

Lemma s_main_file_body (args : Args) (e : Entry) :
  steps R (main_file_body env args e).
Proof.
  unfold main_file_body.
  apply s_bind; [apply s_extract_text_from_file | intros t].
  destruct (is_empty t); [apply s_emit_event; auto |].
  destruct (_ <=? _)%Z; [| apply s_main_chunk_loop].
  apply s_bind; [apply s_process_text_with_ollama | intros r].
  apply s_bind; [apply s_emit_event; auto | intros _].
  apply s_write_record.
Qed.

Lemma s_process_documents_chunk_loop (p m u name : text)
    (chunks : list text) :
  forall i, steps R (process_documents_chunk_loop env p m u name i chunks).
Proof.
  induction chunks as [| c chunks IH]; intros i;
    cbn [process_documents_chunk_loop].
  - now apply steps_ret.
  - apply s_bind; [now apply steps_get_stop | intros stop].
    destruct stop; [apply s_emit_event; auto |].
    apply s_bind; [apply s_process_text_with_ollama | intros r].
    apply s_bind; [apply s_emit_event; auto | intros _].
    apply s_bind; [apply s_write_record | intros _]. apply IH.
Qed.

Lemma s_process_documents_file_body (p : text) (mw : Z) (m u : text)
    (e : Entry) :
  steps R (process_documents_file_body env p mw m u e).
Proof.
  unfold process_documents_file_body.
  apply s_bind; [apply s_extract_text_from_file | intros t].
  destruct (is_empty t); [apply s_emit_event; auto |].
  destruct (_ <=? _)%Z; [| apply s_process_documents_chunk_loop].
  apply s_bind; [apply s_process_text_with_ollama | intros r].
  apply s_bind; [apply s_emit_event; auto | intros _].
  apply s_write_record.
Qed.

Hypothesis P_processing : forall n, P (EvProcessingFile n).
Hypothesis P_error : forall n e, P (EvErrorProcessing n e).

Lemma s_main_file_loop (args : Args) (files : list Entry) :
  steps R (main_file_loop env args files).
Proof.
  induction files as [| f files IH]; cbn [main_file_loop];
    [now apply steps_ret |].
  apply s_bind; [| intros _; exact IH].
  destruct (selected (entry_name f)); [| now apply steps_ret].
  apply s_bind; [now apply s_emit_event | intros _].
  apply steps_try_except;
    [assumption | apply s_main_file_body | intros e; now apply s_emit_event].
Qed.

Lemma s_process_documents_file_loop (p : text) (mw : Z) (m u : text)
    (files : list Entry) :
  steps R (process_documents_file_loop env p mw m u files).
Proof.
  induction files as [| f files IH]; cbn [process_documents_file_loop];
    [now apply steps_ret |].
  apply s_bind; [now apply steps_get_stop | intros stop].
  destruct stop; [now apply s_emit_event |].
  apply s_bind; [| intros _; exact IH].
  destruct (selected (entry_name f)); [| now apply steps_ret].
  apply s_bind; [now apply s_emit_event | intros _].
  apply steps_try_except;
    [assumption | apply s_process_documents_file_body
     | intros e; now apply s_emit_event].
Qed.

End DriverSteps.

Ltac by_grows :=
  first [ apply grows_refl | apply grows_trans
        | intros; apply grows_add_event; assumption
        | intros; apply grows_add_request
        | intros; apply grows_blocking_step; exact I
        | intros; apply grows_append_out
        | intros; exact I ].

Lemma quiet_main_file_body (env : Env) (args : Args) (e : Entry) :
  steps (grows quiet) (main_file_body env args e).
Proof. apply s_main_file_body with (P := quiet); by_grows. Qed.

Lemma quiet_process_documents_file_body (env : Env) (p : text) (mw : Z)
    (m u : text) (e : Entry) :
  steps (grows quiet) (process_documents_file_body env p mw m u e).
Proof. apply s_process_documents_file_body with (P := quiet); by_grows. Qed.

Lemma g_main_chunk_loop (env : Env) (args : Args) (name : text) (i : Z)
    (chunks : list text) :
  steps (grows any_event) (main_chunk_loop env args name i chunks).
Proof. apply s_main_chunk_loop with (P := any_event); by_grows. Qed.


Lemma g_main_file_loop (env : Env) (args : Args) (files : list Entry) :
  steps (grows any_event) (main_file_loop env args files).
Proof. apply s_main_file_loop with (P := any_event); by_grows. Qed.

Lemma g_main_run (env : Env) (args : Args) :
  steps (grows any_event) (main_run env args).
Proof.
  unfold main_run.
  apply steps_bind; [apply grows_trans | | intros _; apply g_main_file_loop].
  intros w. apply grows_touch.
Qed.

Lemma g_process_documents_file_loop (env : Env) (p : text) (mw : Z)
    (m u : text) (files : list Entry) :
  steps (grows any_event) (process_documents_file_loop env p mw m u files).
Proof.
  apply s_process_documents_file_loop with (P := any_event); by_grows.
Qed.

Ltac by_same_flag H :=
  first [ intros; reflexivity
        | unfold same_flag; intros; congruence
        | unfold same_flag, blocking_step; intros; cbn; rewrite H;
          reflexivity
        | intros; exact I ].

Lemma same_flag_main_file_body (env : Env) (args : Args) (e : Entry) :
  never_stopped env -> steps same_flag (main_file_body env args e).
Proof.
  intros H. apply s_main_file_body with (P := any_event); by_same_flag H.
Qed.

Lemma same_flag_process_text_with_ollama (env : Env) (t p u m : text)
    (temp : Q) (k : option text) :
  never_stopped env ->
  steps same_flag (process_text_with_ollama env t p u m temp k).
Proof.
  intros H.
  apply s_process_text_with_ollama; by_same_flag H.
Qed.

Lemma same_flag_write_record (name : text) (chunk : option Z)
    (response : json) :
  steps same_flag (write_record name chunk response).
Proof.
  apply s_write_record;
    first [intros; reflexivity | unfold same_flag; intros; congruence].
Qed.

Lemma same_flag_extract_text_from_file (env : Env) (e : Entry) :
  never_stopped env -> steps same_flag (extract_text_from_file env e).
Proof.
  intros H.
  apply s_extract_text_from_file with (P := any_event); by_same_flag H.
Qed.

(** ** The output file at the start of a run *)

(** The CLI only appends: what [out.txt] held before the run is still
    there, in front of what the run wrote. *)
Lemma main_run_appends_to_out_txt (env : Env) (args : Args) (w : World) :
  exists appended,
    out_content (snd (main_run env args w)) = out_content w ++ appended.
Proof. exact (proj1 (g_main_run env args w)). Qed.

(** The GUI empties [out.txt] before the worker thread starts, and has sent
    no request by then. *)
Lemma start_processing_truncates_out_txt (env : Env) (f : Fields)
    (w w1 : World) (started : text * text * Z * text * text) :
  start_processing env f w = (Ok (Some started), w1) ->
  out_txt w1 = Some [] /\ requests w1 = requests w.
Proof.
  unfold start_processing. destruct (py_int (max_words_var f)) as [mw |].
  - destruct (_ || _).
    + cbn. intros H. inversion H.
    + unfold bind, touch, truncate_out, emit_event, ret.
      destruct (isdir env _); [| cbn; intros H; inversion H].
      destruct (out_txt _); cbn; intros H; inversion H; subst; cbn; auto.
  - cbn. intros H. inversion H.
Qed.

(** C2, at the failing input.  A CLI run in a directory whose [out.txt]
    holds a record of an earlier run does not empty the file: the earlier
    record is still in front of the new one.  The GUI run from the same
    state leaves the new record alone. *)
Theorem main_keeps_the_records_of_the_previous_run :
  out_txt (snd (main_run env_hello args_hello world_after_first_run))
  = Some (record (str "a.txt") None (str "old")
          ++ record (str "a.txt") None (str "fine"))
  /\ out_txt (snd (gui_run env_hello fields_hello world_after_first_run))
     = Some (record (str "a.txt") None (str "fine")).
Proof. split; vm_compute; reflexivity. Qed.

(** ** Failures of the endpoint *)

(** A request that fails with a [RequestException] gives the error string,
    which is written as the body of the unit's record; the loop goes on
    with the next chunk. *)
Lemma main_chunk_loop_error_string (env : Env) (args : Args) (name : text)
    (i : Z) (chunk : text) (rest : list text) (w : World) (msg : text) :
  let r := build_request chunk (prompt args) (url args) (model args)
             (temperature args) (api_key args) in
  answer_value (endpoint env (length (requests w)) r) r
  = Raise (RequestException msg) ->
  let body := str "Error processing chunk: " ++ msg in
  process_text_with_ollama env chunk (prompt args) (url args) (model args)
    (temperature args) (api_key args) w
  = (Ok (JStr body), after_call env r w)
  /\ main_chunk_loop env args name i (chunk :: rest) w
     = main_chunk_loop env args name (i + 1) rest
         (after_record name (Some i) (JStr body) body (after_call env r w)).
Proof.
  intros r Hans body.
  assert (Hc : process_text_with_ollama env chunk (prompt args) (url args)
                 (model args) (temperature args) (api_key args) w
               = (Ok (JStr body), after_call env r w)).
  { rewrite process_text_with_ollama_step. fold r.
    unfold client_value. now rewrite Hans. }
  split; [exact Hc |].
  cbn [main_chunk_loop]. unfold bind at 1. rewrite Hc.
  pose proof (write_record_str name (Some i) body (after_call env r w)) as Hw.
  unfold bind in Hw |- *. cbn in Hw |- *.
  unfold after_record, add_event, set_out, record. cbn.
  now rewrite <- app_assoc.
Qed.

(** C3, at the failing input.  When the endpoint answers 200 with a JSON
    body that lacks the ["response"] field, [process_text_with_ollama]
    raises [KeyError] instead of returning an error string.  In a run over a
    three-word file with one word per chunk, the first chunk is the only one
    sent, nothing is written to [out.txt], and the file is given up with a
    diagnostic. *)
Theorem process_text_with_ollama_raises_on_missing_field :
  fst (process_text_with_ollama env_no_response_field (str "one")
         (str "Summarise") (str "http://localhost:11434") (str "m")
         (6 # 10)%Q None world_start)
  = Raise (KeyError (str "response"))
  /\ chunk_text (str "one two three") 1 = [str "one"; str "two"; str "three"]
  /\ length (requests (snd (main_run env_no_response_field args_one_word
                              world_start))) = 1
  /\ out_txt (snd (main_run env_no_response_field args_one_word world_start))
     = Some []
  /\ events (snd (main_run env_no_response_field args_one_word world_start))
     = [EvProcessingFile (str "a.txt");
        EvErrorProcessing (str "a.txt") (KeyError (str "response"))].
Proof. repeat split; vm_compute; reflexivity. Qed.

(** ** Cancellation *)


Lemma process_documents_file_loop_stopped (env : Env) (p : text) (mw : Z)
    (m u : text) (files : list Entry) (w : World) :
  stop_processing w = true ->
  process_documents_file_loop env p mw m u files w
  = (Ok tt, match files with
            | [] => w
            | _ => add_event EvInterrupted w
            end).
Proof.
  intros Hs. destruct files as [| f rest]; [reflexivity |].
  cbn [process_documents_file_loop]. unfold bind, get_stop.
  now rewrite Hs.
Qed.

Lemma after_call_stop (env : Env) (r : Request) (w : World) :
  stop_processing (after_call env r w)
  = stop_processing w || user_stop env (clock w).
Proof.
  unfold after_call, blocking_step. cbn.
  destruct (user_stop env (clock w)); cbn;
    [now rewrite orb_true_r | now rewrite orb_false_r].
Qed.

Lemma after_call_out_content (env : Env) (r : Request) (w : World) :
  out_content (after_call env r w) = out_content w.
Proof. unfold out_content. now rewrite after_call_out. Qed.

Lemma after_record_out_content (name : text) (chunk : option Z)
    (response : json) (body : text) (w : World) :
  out_content (after_record name chunk response body w)
  = out_content w ++ record name chunk body.
Proof. reflexivity. Qed.




(** ** Configuration errors *)

(** C5 as stated fails: a chunk size of 0 in the GUI, or [--max-words -5]
    on the command line, is accepted; the run starts, and the chunker is
    called with that limit and gives one chunk per word. *)
Lemma nonpositive_max_words_starts_a_run :
  py_int (max_words_var fields_zero) = Some 0%Z
  /\ fst (start_processing env_two_words fields_zero world_start)
     = Ok (Some (str "docs", str "Summarise", 0%Z, str "m",
                 str "http://localhost:11434"))
  /\ map (fun r => d_prompt (req_json r))
       (requests (snd (gui_run env_two_words fields_zero world_start)))
     = [str "Summarise" ++ [NL; NL] ++ str "Text: one";
        str "Summarise" ++ [NL; NL] ++ str "Text: two"]
  /\ option_map max_words (parse_args command_line_minus_five)
     = Some (-5)%Z
  /\ length (requests (snd (main env_two_words command_line_minus_five
                              world_start))) = 2
  /\ chunk_text (str "one two") (-5) = [str "one"; str "two"].
Proof. repeat split; vm_compute; reflexivity. Qed.

Lemma start_processing_rejects (env : Env) (f : Fields) (w : World) :
  py_int (max_words_var f) = None
  \/ directory_var f = [] \/ strip (prompt_text f) = []
  \/ model_var f = [] \/ api_url_var f = [] ->
  exists msg,
    start_processing env f w
    = (Ok None, add_event (EvShowError (str "Input Error") msg) w).
Proof.
  intros H. unfold start_processing.
  destruct (py_int (max_words_var f)) as [mw |]; [| eexists; reflexivity].
  assert (E : is_empty (directory_var f) || is_empty (strip (prompt_text f))
              || is_empty (model_var f) || is_empty (api_url_var f) = true).
  { destruct H as [H | [H | [H | [H | H]]]]; [discriminate | | | |];
      rewrite H; cbn; rewrite ?orb_true_r; reflexivity. }
  rewrite E. eexists. reflexivity.
Qed.

Lemma start_processing_accepts (env : Env) (f : Fields) (w : World)
    (mw : Z) :
  py_int (max_words_var f) = Some mw ->
  directory_var f <> [] -> strip (prompt_text f) <> [] ->
  model_var f <> [] -> api_url_var f <> [] ->
  isdir env (directory_var f) = true ->
  fst (start_processing env f w)
  = Ok (Some (directory_var f, strip (prompt_text f), mw, model_var f,
              api_url_var f)).
Proof.
  intros Hi H1 H2 H3 H4 Hd. unfold start_processing. rewrite Hi, Hd.
  destruct (directory_var f); [congruence |].
  destruct (strip (prompt_text f)); [congruence |].
  destruct (model_var f); [congruence |].
  destruct (api_url_var f); [congruence |].
  unfold bind, touch, truncate_out, ret, emit_event. cbn.
  destruct (out_txt w); reflexivity.
Qed.

Lemma parse_args_rejects (c : CommandLine) :
  cl_directory c = None \/ cl_prompt c = None \/ cl_url c = None
  \/ (exists s, cl_max_words c = Some s /\ py_int s = None) ->
  parse_args c = None.
Proof.
  intros H. unfold parse_args.
  destruct (cl_directory c), (cl_prompt c), (cl_url c);
    try reflexivity.
  destruct H as [H | [H | [H | [s [Hs Hi]]]]]; try discriminate.
  rewrite Hs, Hi. reflexivity.
Qed.

(** C5 (amended).  A chunk size that [int] does not read as an integer, or
    a missing required input, is rejected before the run: the GUI shows an
    error and the CLI ends with a usage error, and in both nothing else
    happens (no file is looked at, no request is sent, [out.txt] is not
    touched).  An integer chunk size of any sign is accepted by both front
    ends: the GUI starts the worker with it when the directory exists, the
    CLI runs with it.  What [int] reads is pinned on a word, a decimal
    fraction, the empty field, a digit after U+001C, digits in another
    script, and a number with white space around it. *)
Theorem invalid_configuration_is_rejected (env : Env) (f : Fields)
    (c : CommandLine) (w : World) :
  (py_int (max_words_var f) = None
   \/ directory_var f = [] \/ strip (prompt_text f) = []
   \/ model_var f = [] \/ api_url_var f = [] ->
   exists msg,
     gui_run env f w
     = (Ok tt, add_event (EvShowError (str "Input Error") msg) w))
  /\ (cl_directory c = None \/ cl_prompt c = None \/ cl_url c = None
      \/ (exists s, cl_max_words c = Some s /\ py_int s = None) ->
      main env c w = (Ok tt, add_event EvUsageError w))
  /\ (forall mw,
        py_int (max_words_var f) = Some mw ->
        directory_var f <> [] -> strip (prompt_text f) <> [] ->
        model_var f <> [] -> api_url_var f <> [] ->
        isdir env (directory_var f) = true ->
        fst (start_processing env f w)
        = Ok (Some (directory_var f, strip (prompt_text f), mw, model_var f,
                    api_url_var f)))
  /\ (forall d p u s mw,
        cl_directory c = Some d -> cl_prompt c = Some p ->
        cl_url c = Some u -> cl_max_words c = Some s ->
        py_int s = Some mw -> cl_temperature c = None ->
        exists args,
          parse_args c = Some args /\ max_words args = mw
          /\ main env c w = main_run env args w)
  /\ (py_int (str "three") = None /\ py_int (str "12.5") = None
      /\ py_int [] = None /\ py_int [28; 53]%N = None
      /\ py_int [1633; 1634; 1635]%N = Some 123%Z
      /\ py_int (str " 3_000 ") = Some 3000%Z
      /\ py_int (str "-5") = Some (-5)%Z
      /\ py_int (repeat 49%N 4301) = None).
Proof.
  split; [| split; [| split; [| split]]].
  - intros H. destruct (start_processing_rejects env f w H) as [msg E].
    exists msg. unfold gui_run, bind. now rewrite E.
  - intros H. unfold main. now rewrite (parse_args_rejects c H).
  - intros mw. apply start_processing_accepts.
  - intros d p u s mw Hd Hp Hu Hs Hi Ht.
    unfold main, parse_args. rewrite Hd, Hp, Hu, Hs, Hi, Ht.
    eexists. split; [reflexivity | split; reflexivity].
  - vm_compute. repeat split; reflexivity.
Qed.

(** ** Whole document or chunks *)



Lemma write_record_requests (e : Event) (name : text) (chunk : option Z)
    (response : json) (w : World) :
  requests (snd ((emit_event e ;;; write_record name chunk response) w))
  = requests w.
Proof.
  unfold bind, emit_event, write_record, append_out, raise.
  destruct response; reflexivity.
Qed.

Lemma write_record_ok (e : Event) (name : text) (chunk : option Z)
    (response : json) (w w' : World) :
  (emit_event e ;;; write_record name chunk response) w = (Ok tt, w') ->
  requests w' = requests w /\ stop_processing w' = stop_processing w.
Proof.
  unfold bind, emit_event, write_record, append_out, raise.
  destruct response; intros H; inversion H; subst; auto.
Qed.

Lemma write_step_requests (name : text) (chunk : option Z) (response : json)
    (w : World) :
  requests (snd (write_step name chunk response w)) = requests w.
Proof. apply write_record_requests. Qed.

(** One turn of the CLI's loop over the chunks. *)
Lemma main_chunk_loop_turn (env : Env) (args : Args) (name : text) (i : Z)
    (c : text) (rest : list text) (w : World) :
  let r := request_for args c in
  main_chunk_loop env args name i (c :: rest) w
  = match client_value (endpoint env (length (requests w)) r) r with
    | Raise e => (Raise e, after_call env r w)
    | Ok v =>
        match write_step name (Some i) v (after_call env r w) with
        | (Ok _, w2) => main_chunk_loop env args name (i + 1) rest w2
        | (Raise e, w2) => (Raise e, w2)
        end
    end.
Proof.
  intros r. cbn [main_chunk_loop]. unfold bind at 1.
  rewrite process_text_with_ollama_step. fold (request_for args c). fold r.
  destruct (client_value _ _) as [v | e]; [| reflexivity].
  unfold write_step, bind, emit_event, write_record, append_out, raise.
  destruct v; reflexivity.
Qed.

(** One turn of the GUI's loop over the chunks. *)
Lemma process_documents_chunk_loop_turn (env : Env) (p : text) (mw : Z)
    (m u name : text) (i : Z) (c : text) (rest : list text) (w : World) :
  let r := request_for (gui_args [] p mw m u) c in
  process_documents_chunk_loop env p m u name i (c :: rest) w
  = if stop_processing w then (Ok tt, add_event EvInterrupted w)
    else
      match client_value (endpoint env (length (requests w)) r) r with
      | Raise e => (Raise e, after_call env r w)
      | Ok v =>
          match write_step name (Some i) v (after_call env r w) with
          | (Ok _, w2) =>
              process_documents_chunk_loop env p m u name (i + 1) rest w2
          | (Raise e, w2) => (Raise e, w2)
          end
      end.
Proof.
  intros r. cbn [process_documents_chunk_loop]. unfold bind at 1, get_stop.
  destruct (stop_processing w); [reflexivity |].
  unfold bind at 1. rewrite process_text_with_ollama_step.
  change (build_request c p u m gui_temperature gui_api_key) with r.
  destruct (client_value _ _) as [v | e]; [| reflexivity].
  unfold write_step, bind, emit_event, write_record, append_out, raise.
  destruct v; reflexivity.
Qed.

Lemma main_chunk_loop_prefix (env : Env) (args : Args) (name : text)
    (chunks : list text) :
  forall i w,
  exists k,
    requests (snd (main_chunk_loop env args name i chunks w))
    = requests w ++ map (request_for args) (firstn k chunks).
Proof.
  induction chunks as [| c chunks IH]; intros i w.
  - exists 0. cbn. now rewrite app_nil_r.
  - rewrite main_chunk_loop_turn.
    pose proof (after_call_requests env (request_for args c) w) as Hr.
    destruct (client_value _ _) as [v | e].
    + pose proof (write_step_requests name (Some i) v
                    (after_call env (request_for args c) w)) as Hq.
      destruct (write_step _ _ _ _) as [[[] | e2] w3]; cbn [snd] in *.
      * destruct (IH (i + 1)%Z w3) as [k Hk]. exists (S k).
        rewrite Hk, Hq, Hr. cbn [firstn map]. now rewrite <- app_assoc.
      * exists 1. rewrite Hq, Hr. cbn. destruct chunks; reflexivity.
    + exists 1. cbn [snd]. rewrite Hr. cbn. destruct chunks; reflexivity.
Qed.

Lemma process_documents_chunk_loop_prefix (env : Env) (p : text) (mw : Z)
    (m u name : text) (chunks : list text) :
  forall i w,
  exists k,
    requests (snd (process_documents_chunk_loop env p m u name i chunks w))
    = requests w
      ++ map (request_for (gui_args [] p mw m u)) (firstn k chunks).
Proof.
  induction chunks as [| c chunks IH]; intros i w.
  - exists 0. cbn. now rewrite app_nil_r.
  - rewrite (process_documents_chunk_loop_turn env p mw).
    destruct (stop_processing w).
    { exists 0. cbn. now rewrite app_nil_r. }
    set (r := request_for (gui_args [] p mw m u) c).
    pose proof (after_call_requests env r w) as Hr.
    destruct (client_value _ _) as [v | e].
    + pose proof (write_step_requests name (Some i) v (after_call env r w))
        as Hq.
      destruct (write_step _ _ _ _) as [[[] | e2] w3]; cbn [snd] in *.
      * destruct (IH (i + 1)%Z w3) as [k Hk]. exists (S k).
        rewrite Hk, Hq, Hr. cbn [firstn map]. now rewrite <- app_assoc.
      * exists 1. rewrite Hq, Hr. cbn. destruct chunks; reflexivity.
    + exists 1. cbn [snd]. rewrite Hr. cbn. destruct chunks; reflexivity.
Qed.

Lemma write_step_stop (name : text) (chunk : option Z) (response : json)
    (w : World) :
  stop_processing (snd (write_step name chunk response w))
  = stop_processing w.
Proof.
  unfold write_step, bind, emit_event, write_record, append_out, raise.
  destruct response; reflexivity.
Qed.

(** With Stop never pressed and the flag not set, the GUI's loop over the
    chunks is the CLI's. *)
Lemma process_documents_chunk_loop_never_stopped (env : Env)
    (target_dir p : text) (mw : Z) (m u name : text) (chunks : list text) :
  never_stopped env ->
  forall i w, stop_processing w = false ->
  process_documents_chunk_loop env p m u name i chunks w
  = main_chunk_loop env (gui_args target_dir p mw m u) name i chunks w.
Proof.
  intros Hn. induction chunks as [| c chunks IH]; intros i w Hs;
    [reflexivity |].
  rewrite (process_documents_chunk_loop_turn env p mw), main_chunk_loop_turn.
  rewrite Hs.
  change (request_for (gui_args target_dir p mw m u) c)
    with (request_for (gui_args [] p mw m u) c).
  set (r := request_for (gui_args [] p mw m u) c).
  destruct (client_value _ _) as [v | e]; [| reflexivity].
  pose proof (write_step_stop name (Some i) v (after_call env r w)) as Hf.
  destruct (write_step _ _ _ _) as [[[] | e2] w3]; [| reflexivity].
  apply IH. cbn [snd] in Hf. rewrite Hf, after_call_stop, Hs, Hn.
  reflexivity.
Qed.

Lemma single_shot_turn (env : Env) (args : Args) (name t : text)
    (w : World) :
  let r := request_for args t in
  single_shot env args name t w
  = match client_value (endpoint env (length (requests w)) r) r with
    | Raise e => (Raise e, after_call env r w)
    | Ok v => write_step name None v (after_call env r w)
    end.
Proof.
  intros r. unfold single_shot, bind at 1.
  rewrite process_text_with_ollama_step. fold (request_for args t). fold r.
  destruct (client_value _ _) as [v | e]; reflexivity.
Qed.

Lemma single_shot_sent_whole (env : Env) (args : Args) (name t : text)
    (w : World) :
  sent_whole env args name t w (snd (single_shot env args name t w)).
Proof.
  unfold sent_whole. rewrite single_shot_turn.
  set (r := request_for args t).
  pose proof (after_call_requests env r w) as Hr.
  split.
  - destruct (client_value _ _) as [v | e]; [| exact Hr].
    now rewrite write_step_requests.
  - intros body Hb. rewrite Hb. unfold write_step.
    rewrite write_record_str. cbn [snd].
    now rewrite after_record_out_content, after_call_out_content.
Qed.

Lemma main_file_body_unfold (env : Env) (args : Args) (file : Entry)
    (raw : text) (w w1 : World) :
  extract_text_from_file env file w = (Ok raw, w1) -> raw <> [] ->
  main_file_body env args file w
  = if (word_count (normalize raw) <=? max_words args)%Z
    then single_shot env args (entry_name file) (normalize raw) w1
    else main_chunk_loop env args (entry_name file) 1
           (chunk_text (normalize raw) (max_words args)) w1.
Proof.
  intros He Hraw. unfold main_file_body, bind at 1. rewrite He.
  destruct raw; [congruence |]. cbn [is_empty].
  destruct (_ <=? _)%Z; reflexivity.
Qed.

Lemma process_documents_file_body_unfold (env : Env) (target_dir p : text)
    (mw : Z) (m u : text) (file : Entry) (raw : text) (w w1 : World) :
  extract_text_from_file env file w = (Ok raw, w1) -> raw <> [] ->
  process_documents_file_body env p mw m u file w
  = if (word_count (normalize raw) <=? mw)%Z
    then single_shot env (gui_args target_dir p mw m u) (entry_name file)
           (normalize raw) w1
    else process_documents_chunk_loop env p m u (entry_name file) 1
           (chunk_text (normalize raw) mw) w1.
Proof.
  intros He Hraw. unfold process_documents_file_body, bind at 1. rewrite He.
  destruct raw; [congruence |]. cbn [is_empty].
  destruct (_ <=? _)%Z; reflexivity.
Qed.

Lemma extract_text_from_file_stop (env : Env) (file : Entry)
    (w w1 : World) (r : result text) :
  never_stopped env ->
  extract_text_from_file env file w = (r, w1) ->
  stop_processing w1 = stop_processing w.
Proof.
  intros Hn He.
  pose proof (same_flag_extract_text_from_file env file Hn w) as H.
  rewrite He in H. exact H.
Qed.



(** C8.  The drivers' normalisation, [re.sub(r'\s+', ' ', text).strip()],
    turns a text made of words separated by runs of whitespace, with any
    whitespace before and after, into the words joined by single spaces; on
    every text it returns [' '.join(text.split())].  The result holds no
    whitespace character other than the space, so no newline and no tab, no
    two whitespace characters in a row, and no whitespace at either end.
    Both drivers apply it once to the text a file yields, after the
    extraction and the empty-text check: the word count, the single-shot
    payload and the chunks are all taken from the normalised text. *)
Theorem normalize_collapses_whitespace (t : text) :
  normalize t = join [SP] (split t)
  /\ (forall lead w rest trail,
        allspace lead -> wordlike w ->
        Forall (fun rw => allspace (fst rw) /\ fst rw <> []
                          /\ wordlike (snd rw)) rest ->
        allspace trail ->
        normalize (lead ++ spaced w rest ++ trail)
        = join [SP] (w :: map snd rest))
  /\ (forall r, allspace r -> normalize r = [])
  /\ (forall c, In c (normalize t) -> isspace c = true -> c = SP)
  /\ ~ In NL (normalize t)
  /\ ~ In TAB (normalize t)
  /\ (forall a c1 c2 b, normalize t = a ++ c1 :: c2 :: b ->
        isspace c1 = true -> isspace c2 = true -> False)
  /\ (forall c s, normalize t = c :: s -> isspace c = false)
  /\ (forall s c, normalize t = s ++ [c] -> isspace c = false)
  /\ (forall env args file raw w w1,
        extract_text_from_file env file w = (Ok raw, w1) -> raw <> [] ->
        main_file_body env args file w
        = if (word_count (normalize raw) <=? max_words args)%Z
          then single_shot env args (entry_name file) (normalize raw) w1
          else main_chunk_loop env args (entry_name file) 1
                 (chunk_text (normalize raw) (max_words args)) w1)
  /\ (forall env target_dir p mw m u file raw w w1,
        extract_text_from_file env file w = (Ok raw, w1) -> raw <> [] ->
        process_documents_file_body env p mw m u file w
        = if (word_count (normalize raw) <=? mw)%Z
          then single_shot env (gui_args target_dir p mw m u)
                 (entry_name file) (normalize raw) w1
          else process_documents_chunk_loop env p m u (entry_name file) 1
                 (chunk_text (normalize raw) mw) w1).
Proof.
  pose proof (split_wordlike t) as Hws.
  pose proof (normalize_join_split t) as E.
  assert (Hsp : forall c, In c (normalize t) -> isspace c = true -> c = SP).
  { intros c. rewrite E. now apply join_only_single_spaces. }
  split; [exact E |].
  split.
  { intros lead w rest trail Hlead Hw Hrest Htrail.
    rewrite normalize_join_split. f_equal. unfold split.
    rewrite split_go_allspace by assumption. now apply split_spaced. }
  split; [exact normalize_allspace |].
  split; [exact Hsp |].
  split; [intros H; now specialize (Hsp _ H eq_refl) |].
  split; [intros H; now specialize (Hsp _ H eq_refl) |].
  split.
  { intros a c1 c2 b Hn H1 H2.
    pose proof (join_no_adjacent_ws _ Hws) as Hadj.
    rewrite <- E, Hn, adjacent_ws_found in Hadj by assumption.
    discriminate. }
  split; [intros c s Hn; rewrite E in Hn; eapply join_head; eassumption |].
  split; [intros s c Hn; rewrite E in Hn; eapply join_last; eassumption |].
  split.
  - exact main_file_body_unfold.
  - exact process_documents_file_body_unfold.
Qed.



(** ** A document of whitespace only *)

(** C10 as stated fails for a negative limit: with [--max-words -1] the
    file of whitespace is not skipped by the empty-text check, its word
    count 0 is not [<= -1], the chunker gives no chunk for it, and the run
    sends no request and writes no record. *)
Lemma whitespace_document_with_negative_limit :
  fst (extract_text_from_file env_blank
         (File (str "blank.txt") (plain_file [SP; NL])) world_start)
  = Ok [SP; NL]
  /\ normalize [SP; NL] = []
  /\ chunk_text [] (-1) = []
  /\ requests (snd (main_run env_blank args_minus_one world_start)) = []
  /\ out_txt (snd (main_run env_blank args_minus_one world_start)) = Some []
  /\ events (snd (main_run env_blank args_minus_one world_start))
     = [EvProcessingFile (str "blank.txt")]
  /\ requests
       (snd (gui_run env_blank
               (mkFields (str "docs") (str "Summarise") (str "-1") (str "m")
                  (str "http://localhost:11434")) world_start)) = [].
Proof. repeat split; vm_compute; reflexivity. Qed.

(** C10 (amended).  When [max_words] is not negative, a file whose
    extracted text is not empty and is whitespace only is not skipped: the
    text normalises to the empty string, of word count 0, and both drivers
    send it as one unit, the request carrying the prompt and an empty text,
    and write the string the client returns as one record without a chunk
    index. *)
Theorem whitespace_only_document_is_sent (env : Env) (args : Args)
    (file : Entry) (raw : text) (w w1 : World) :
  extract_text_from_file env file w = (Ok raw, w1) ->
  raw <> [] ->
  allspace raw ->
  (0 <= max_words args)%Z ->
  let name := entry_name file in
  let gargs := gui_args (directory args) (prompt args) (max_words args)
                 (model args) (url args) in
  normalize raw = []
  /\ word_count (normalize raw) = 0%Z
  /\ d_prompt (req_json (request_for args []))
     = prompt args ++ [NL; NL] ++ str "Text: "
  /\ sent_whole env args name [] w1 (snd (main_file_body env args file w))
  /\ sent_whole env gargs name [] w1
       (snd (process_documents_file_body env (prompt args) (max_words args)
               (model args) (url args) file w)).
Proof.
  intros He Hraw Hws Hmax name gargs.
  pose proof (normalize_allspace raw Hws) as Hn.
  split; [exact Hn |]. split; [now rewrite Hn |].
  split; [cbn; rewrite ?app_nil_r; reflexivity |].
  rewrite (main_file_body_unfold env args file raw w w1 He Hraw).
  rewrite (process_documents_file_body_unfold env (directory args)
             (prompt args) (max_words args) (model args) (url args) file
             raw w w1 He Hraw).
  rewrite Hn. change (word_count []) with 0%Z.
  apply Z.leb_le in Hmax. rewrite Hmax.
  split; apply single_shot_sent_whole.
Qed.

Lemma whitespace_only_document_is_sent_witness :
  requests
    (snd (main_file_body env_blank args_hello
            (File (str "blank.txt") (plain_file [SP; NL])) world_start))
  = [request_for args_hello []]
  /\ out_content
       (snd (main_file_body env_blank args_hello
               (File (str "blank.txt") (plain_file [SP; NL])) world_start))
     = record (str "blank.txt") None (str "fine").
Proof.
  destruct (whitespace_only_document_is_sent env_blank args_hello
              (File (str "blank.txt") (plain_file [SP; NL])) [SP; NL]
              world_start
              (snd (extract_text_from_file env_blank
                      (File (str "blank.txt") (plain_file [SP; NL]))
                      world_start))
              eq_refl ltac:(discriminate)
              ltac:(repeat constructor) ltac:(vm_compute; discriminate))
    as [_ [_ [_ [[Hreq Hout] _]]]].
  split; [exact Hreq | exact (Hout (str "fine") eq_refl)].
Defined.

(** ** Enumeration *)

Lemma text_eqb_eq (a b : text) : text_eqb a b = true <-> a = b.
Proof.
  unfold text_eqb. destruct (list_eq_dec N.eq_dec a b); split; congruence.
Qed.

Lemma text_in_In (x : text) (l : list text) :
  text_in x l = true <-> In x l.
Proof.
  unfold text_in. rewrite existsb_exists. split.
  - intros [y [Hy E]]. apply text_eqb_eq in E. now subst.
  - intros H. exists x. split; [assumption | now apply text_eqb_eq].
Qed.

Lemma from_last_dot_none (s : text) :
  from_last_dot s = None <-> ~ In DOT s.
Proof.
  induction s as [| c s IH]; cbn; [tauto |].
  destruct (from_last_dot s) as [y |].
  - split; [discriminate |]. intros H. exfalso.
    assert (Hs : ~ In DOT s) by tauto.
    apply IH in Hs. discriminate.
  - destruct (N.eqb_spec c DOT) as [-> | Hne].
    + split; [discriminate | tauto].
    + split; [| reflexivity]. intros _ [H | H]; [congruence |].
      now apply IH.
Qed.

Lemma from_last_dot_app (pre x : text) :
  ~ In DOT x -> from_last_dot (pre ++ DOT :: x) = Some (DOT :: x).
Proof.
  intros Hx. induction pre as [| c pre IH]; cbn.
  - apply from_last_dot_none in Hx. rewrite Hx. reflexivity.
  - now rewrite IH.
Qed.

Lemma from_last_dot_some (s y : text) :
  from_last_dot s = Some y ->
  exists pre x, s = pre ++ DOT :: x /\ ~ In DOT x /\ y = DOT :: x.
Proof.
  revert y. induction s as [| c s IH]; intros y; cbn; [discriminate |].
  destruct (from_last_dot s) as [y' |] eqn:E.
  - intros H. inversion H; subst.
    destruct (IH y eq_refl) as [pre [x [Hs [Hx Hy]]]].
    exists (c :: pre), x. subst. auto.
  - destruct (N.eqb_spec c DOT) as [-> | Hne]; [| discriminate].
    intros H. inversion H; subst. exists [], s.
    split; [reflexivity |]. split; [| reflexivity].
    now apply from_last_dot_none.
Qed.

(** [suffix] computes the extension. *)
Lemma suffix_has_extension (name ext : text) :
  has_extension name ext <-> suffix name = ext /\ ext <> [].
Proof.
  split.
  - intros [stem [x [Hn [Hstem [Hx [Hdot He]]]]]]. subst.
    split; [| discriminate].
    destruct stem as [| c pre]; [congruence |]. cbn.
    rewrite from_last_dot_app by assumption.
    destruct x; [congruence | reflexivity].
  - intros [Hs Hne]. destruct name as [| c rest]; [cbn in Hs; congruence |].
    cbn in Hs. destruct (from_last_dot rest) as [y |] eqn:E;
      [| congruence].
    destruct (from_last_dot_some rest y E) as [pre [x [Hr [Hx Hy]]]].
    subst y. destruct x as [| x1 x]; [congruence |]. subst.
    exists (c :: pre), (x1 :: x). repeat split; auto; discriminate.
Qed.

Lemma same_letter_lower (c : char) : same_letter c (lower_char c).
Proof.
  unfold same_letter, lower_char, is_upper.
  destruct ((65 <=? c) && (c <=? 90))%N eqn:E; [| now left].
  right. left. apply andb_true_iff in E. rewrite !N.leb_le in E.
  split; [lia | reflexivity].
Qed.

Lemma lower_same_letter (c d : char) :
  same_letter c d -> ~ is_upper d -> lower_char c = d.
Proof.
  unfold same_letter, lower_char, is_upper. intros H Hd.
  destruct ((65 <=? c) && (c <=? 90))%N eqn:E.
  - apply andb_true_iff in E. rewrite !N.leb_le in E.
    destruct H as [-> | [[_ ->] | [Hu _]]]; [lia | reflexivity | lia].
  - apply andb_false_iff in E. rewrite !N.leb_gt in E.
    destruct H as [-> | [[Hu _] | [Hu _]]]; [reflexivity | lia | lia].
Qed.

Lemma caseless_eq_lower (a : text) : caseless_eq a (lower a).
Proof.
  induction a; constructor; [apply same_letter_lower | assumption].
Qed.

Lemma lower_caseless_eq (a e : text) :
  caseless_eq a e -> Forall (fun d => ~ is_upper d) e -> lower a = e.
Proof.
  induction 1 as [| c d a e Hcd Hae IH]; intros He; [reflexivity |].
  inversion He; subst. cbn. f_equal; [now apply lower_same_letter | auto].
Qed.

Lemma supported_extensions_lowercase (e : text) :
  In e supported_extensions -> Forall (fun d => ~ is_upper d) e /\ e <> [].
Proof.
  intros [<- | [<- | [<- | [<- | []]]]];
    (split; [repeat constructor; unfold is_upper; cbn; lia | discriminate]).
Qed.

(** The driver's test is the selection of the spec. *)
Lemma selected_spec (name : text) :
  selected name = true <-> spec_selected name.
Proof.
  unfold selected, spec_selected. rewrite andb_true_iff, negb_true_iff.
  split.
  - intros [Hin Hname]. split.
    + intros E. apply text_eqb_eq in E. congruence.
    + apply text_in_In in Hin.
      exists (suffix name). split.
      * apply suffix_has_extension. split; [reflexivity |].
        intros E. rewrite E in Hin. cbn in Hin.
        destruct Hin as [H | [H | [H | [H | []]]]]; discriminate.
      * pose proof (caseless_eq_lower (suffix name)) as Hc.
        destruct Hin as [H | [H | [H | [H | []]]]]; rewrite <- H in Hc;
          auto.
  - intros [Hname [ext [Hext Hce]]]. split.
    + apply text_in_In. apply suffix_has_extension in Hext.
      destruct Hext as [-> _].
      assert (H : exists e, In e supported_extensions /\ caseless_eq ext e).
      { destruct Hce as [H | [H | [H | H]]]; eexists; (split; [| exact H]);
          cbn; auto. }
      destruct H as [e [He Hc]].
      destruct (supported_extensions_lowercase e He) as [Hlow _].
      now rewrite (lower_caseless_eq _ _ Hc Hlow).
    + destruct (text_eqb name (str "out.txt")) eqn:E; [| reflexivity].
      apply text_eqb_eq in E. congruence.
Qed.

Lemma selected_has_dot (name : text) :
  selected name = true -> matches_star_dot_star name = true.
Proof.
  intros H. apply selected_spec in H.
  destruct H as [_ [ext [[stem [x [Hn _]]] _]]]. subst.
  unfold matches_star_dot_star. apply existsb_exists. exists DOT.
  split; [apply in_or_app; right; now left | reflexivity].
Qed.

(** The pattern of the [glob] lets every selected entry through. *)
Lemma filter_selected_glob (children : list Entry) :
  filter selected_entry (glob_star_dot_star children)
  = filter selected_entry children.
Proof.
  unfold glob_star_dot_star. induction children as [| e l IH];
    [reflexivity |].
  cbn [filter]. destruct (matches_star_dot_star (entry_name e)) eqn:Em.
  - cbn [filter]. now rewrite IH.
  - destruct (selected_entry e) eqn:Es; [| exact IH].
    apply selected_has_dot in Es. congruence.
Qed.

Lemma bind_ext {A B} (m : M A) (k k' : A -> M B) (w : World) :
  (forall a w', k a w' = k' a w') -> bind m k w = bind m k' w.
Proof.
  intros H. unfold bind. destruct (m w) as [[a | e] w1]; [apply H | auto].
Qed.

(** An entry that is not selected leaves no trace in a CLI run. *)
Lemma main_file_loop_filter (env : Env) (args : Args) (files : list Entry)
    (w : World) :
  main_file_loop env args files w
  = main_file_loop env args (filter selected_entry files) w.
Proof.
  revert w. induction files as [| f files IH]; intros w; [reflexivity |].
  cbn [filter main_file_loop]. unfold selected_entry at 1.
  destruct (selected (entry_name f)) eqn:Es.
  - cbn [main_file_loop]. rewrite Es. apply bind_ext. intros _ w'.
    apply IH.
  - unfold bind at 1. cbn. apply IH.
Qed.

Lemma announced_app (a b : list Event) :
  announced (a ++ b) = announced a ++ announced b.
Proof. apply flat_map_app. Qed.

Lemma announced_quiet (evs : list Event) :
  Forall quiet evs -> announced evs = [].
Proof.
  induction 1 as [| e evs He Hevs IH]; [reflexivity |].
  unfold announced in *. cbn [flat_map]. rewrite IH.
  destruct e; cbn in *; first [reflexivity | contradiction].
Qed.

(** A CLI run announces the selected entries, all of them, in the order of
    the listing. *)
Lemma main_file_loop_announced (env : Env) (args : Args)
    (files : list Entry) :
  forall w,
  announced (events (snd (main_file_loop env args files w)))
  = announced (events w) ++ map entry_name (filter selected_entry files).
Proof.
  induction files as [| f files IH]; intros w.
  - cbn. now rewrite app_nil_r.
  - cbn [main_file_loop filter]. unfold selected_entry at 1.
    destruct (selected (entry_name f)) eqn:Es.
    + unfold bind at 1.
      assert (H : exists r w1,
                (emit_event (EvProcessingFile (entry_name f)) ;;;
                 try_except (main_file_body env args f) any_Exception
                   (fun e => emit_event
                               (EvErrorProcessing (entry_name f) e))) w
                = (Ok r, w1)
                /\ announced (events w1)
                   = announced (events w) ++ [entry_name f]).
      { unfold bind, emit_event, try_except, any_Exception.
        pose proof (quiet_main_file_body env args f
                      (add_event (EvProcessingFile (entry_name f)) w))
          as [_ [_ [[evs [Hev Hq]] _]]].
        destruct (main_file_body env args f _) as [[[] | e] w1];
          cbn [snd] in Hev; eexists; eexists; (split; [reflexivity |]).
        - rewrite Hev. cbn [events add_event].
          now rewrite !announced_app, (announced_quiet evs Hq), app_nil_r.
        - cbn [events add_event]. rewrite Hev. cbn [events add_event].
          rewrite !announced_app, (announced_quiet evs Hq). cbn.
          now rewrite !app_nil_r. }
      destruct H as [r [w1 [E Ha]]]. rewrite E.
      rewrite IH, Ha. cbn [map]. now rewrite <- app_assoc.
    + unfold bind at 1. cbn. apply IH.
Qed.

(** What lies below a sub-directory plays no part: the loop sees the
    children of the target directory only. *)
Lemma main_file_loop_not_recursive (env : Env) (args : Args) (name : text)
    (below below' : list Entry) (before after : list Entry) (w : World) :
  main_file_loop env args (before ++ Dir name below :: after) w
  = main_file_loop env args (before ++ Dir name below' :: after) w.
Proof.
  revert w. induction before as [| f before IH]; intros w.
  - reflexivity.
  - cbn [app main_file_loop]. apply bind_ext. intros _ w'. apply IH.
Qed.

Lemma bind_ext_on {A B} (m : M A) (k k' : A -> M B) (w : World) :
  (forall a w', m w = (Ok a, w') -> k a w' = k' a w') ->
  bind m k w = bind m k' w.
Proof.
  intros H. unfold bind. destruct (m w) as [[a | e] w1]; [now apply H | auto].
Qed.

Lemma bind_cong_on {A B} (m m' : M A) (k k' : A -> M B) (w : World) :
  m w = m' w ->
  (forall a w', m' w = (Ok a, w') -> k a w' = k' a w') ->
  bind m k w = bind m' k' w.
Proof.
  intros Hm H. unfold bind. rewrite Hm.
  destruct (m' w) as [[a | e] w1]; [now apply H | auto].
Qed.

(** With Stop never pressed and the flag not set, the GUI's treatment of a
    file and its loop over the directory are the CLI's. *)
Lemma process_documents_file_body_never_stopped (env : Env)
    (target_dir p : text) (mw : Z) (m u : text) (f : Entry) (w : World) :
  never_stopped env -> stop_processing w = false ->
  process_documents_file_body env p mw m u f w
  = main_file_body env (gui_args target_dir p mw m u) f w.
Proof.
  intros Hn Hs. unfold process_documents_file_body, main_file_body.
  apply bind_ext_on. intros t w' He.
  destruct (is_empty t); [reflexivity |].
  cbn [max_words prompt url model temperature api_key gui_args].
  destruct (_ <=? _)%Z; [reflexivity |].
  apply (process_documents_chunk_loop_never_stopped env target_dir p mw m u
           (entry_name f) _ Hn).
  rewrite (extract_text_from_file_stop env f w w' _ Hn He). exact Hs.
Qed.

Lemma same_flag_main_entry (env : Env) (args : Args) (f : Entry) :
  never_stopped env -> steps same_flag (main_entry env args f).
Proof.
  intros Hn. unfold main_entry.
  destruct (selected (entry_name f)); [| intros w; reflexivity].
  apply steps_bind; [unfold same_flag; congruence | intros w; reflexivity |].
  intros _. apply steps_try_except; [unfold same_flag; congruence | |].
  - now apply same_flag_main_file_body.
  - intros e w. reflexivity.
Qed.

Lemma process_documents_file_loop_never_stopped (env : Env)
    (target_dir p : text) (mw : Z) (m u : text) (files : list Entry) :
  never_stopped env ->
  forall w, stop_processing w = false ->
  process_documents_file_loop env p mw m u files w
  = main_file_loop env (gui_args target_dir p mw m u) files w.
Proof.
  intros Hn. induction files as [| f files IH]; intros w Hs;
    [reflexivity |].
  cbn [process_documents_file_loop main_file_loop].
  unfold bind at 1, get_stop. rewrite Hs.
  fold (main_entry env (gui_args target_dir p mw m u) f).
  assert (Hblock :
            (if selected (entry_name f)
             then
               emit_event (EvProcessingFile (entry_name f)) ;;;
               try_except (process_documents_file_body env p mw m u f)
                 any_Exception
                 (fun e => emit_event (EvErrorProcessing (entry_name f) e))
             else ret tt) w
            = main_entry env (gui_args target_dir p mw m u) f w).
  { unfold main_entry. destruct (selected (entry_name f)); [| reflexivity].
    unfold bind, emit_event, try_except.
    now rewrite (process_documents_file_body_never_stopped env target_dir
                   p mw m u f
                   (add_event (EvProcessingFile (entry_name f)) w) Hn Hs). }
  apply bind_cong_on; [exact Hblock |]. intros [] w1 E.
  pose proof (same_flag_main_entry env (gui_args target_dir p mw m u) f Hn w)
    as Hf.
  rewrite E in Hf. apply IH. unfold same_flag in Hf. cbn [snd] in Hf.
  congruence.
Qed.

(** In the GUI the flag can cut the run short: the announced files are the
    first selected entries, in the order of the listing. *)
Lemma process_documents_file_loop_announced (env : Env) (p : text) (mw : Z)
    (m u : text) (files : list Entry) :
  forall w,
  exists k,
    announced (events (snd (process_documents_file_loop env p mw m u files
                              w)))
    = announced (events w)
      ++ map entry_name (firstn k (filter selected_entry files)).
Proof.
  induction files as [| f files IH]; intros w.
  - exists 0. cbn. now rewrite app_nil_r.
  - cbn [process_documents_file_loop]. unfold bind at 1, get_stop.
    destruct (stop_processing w).
    { exists 0. cbn [snd emit_event]. unfold add_event. cbn [events].
      rewrite announced_app. cbn. now rewrite !app_nil_r. }
    cbn [filter]. unfold selected_entry at 1.
    destruct (selected (entry_name f)) eqn:Es.
    + unfold bind at 1.
      assert (H : exists r w1,
                (emit_event (EvProcessingFile (entry_name f)) ;;;
                 try_except (process_documents_file_body env p mw m u f)
                   any_Exception
                   (fun e => emit_event
                               (EvErrorProcessing (entry_name f) e))) w
                = (Ok r, w1)
                /\ announced (events w1)
                   = announced (events w) ++ [entry_name f]).
      { unfold bind, emit_event, try_except, any_Exception.
        pose proof (quiet_process_documents_file_body env p mw m u f
                      (add_event (EvProcessingFile (entry_name f)) w))
          as [_ [_ [[evs [Hev Hq]] _]]].
        destruct (process_documents_file_body env p mw m u f _)
          as [[[] | e] w1];
          cbn [snd] in Hev; eexists; eexists; (split; [reflexivity |]).
        - rewrite Hev. cbn [events add_event].
          now rewrite !announced_app, (announced_quiet evs Hq), app_nil_r.
        - cbn [events add_event]. rewrite Hev. cbn [events add_event].
          rewrite !announced_app, (announced_quiet evs Hq). cbn.
          now rewrite !app_nil_r. }
      destruct H as [r [w1 [E Ha]]]. rewrite E.
      destruct (IH w1) as [k Hk]. exists (S k).
      rewrite Hk, Ha. cbn [firstn map]. now rewrite <- app_assoc.
    + unfold bind at 1. cbn. apply IH.
Qed.

(** C7.  The drivers' test selects an entry exactly when its extension is
    one of [.txt], [.pdf], [.doc], [.docx] up to the case of the letters and
    its name is not [out.txt]: [report.txt], [Paper.PDF], [old.Doc],
    [new.docx] and [OUT.TXT] are selected, and [out.txt], [photo.png],
    [tool.exe], [README], [notes.txt.bak] and [.txt] are not.  A CLI run in
    an existing directory announces and treats the selected children of the
    directory, all of them and nothing else, in the order of the listing:
    the pattern of the [glob] removes none of them, an entry that is not
    selected changes nothing in the run, and what lies below a
    sub-directory plays no part.  With no selected entry the run sends no
    request and writes no record.  A GUI run announces the first selected
    entries, all of them when Stop is never pressed. *)
Theorem enumeration_selects_supported_files (env : Env) (args : Args)
    (w : World) :
  let children := listdir env (directory args) in
  let w' := snd (main_run env args w) in
  (forall name, selected name = true <-> spec_selected name)
  /\ (selected (str "report.txt") = true
      /\ selected (str "Paper.PDF") = true
      /\ selected (str "old.Doc") = true
      /\ selected (str "new.docx") = true
      /\ selected (str "OUT.TXT") = true
      /\ selected (str "out.txt") = false
      /\ selected (str "photo.png") = false
      /\ selected (str "tool.exe") = false
      /\ selected (str "README") = false
      /\ selected (str "notes.txt.bak") = false
      /\ selected (str ".txt") = false)
  /\ (isdir env (directory args) = true ->
      announced (events w')
      = announced (events w)
        ++ map entry_name (filter selected_entry children)
      /\ main_run env args w
         = (touch true ;;;
            main_file_loop env args (filter selected_entry children)) w
      /\ (filter selected_entry children = [] ->
          requests w' = requests w /\ out_content w' = out_content w
          /\ events w' = events w))
  /\ (forall name below below' before after w0,
        main_file_loop env args (before ++ Dir name below :: after) w0
        = main_file_loop env args (before ++ Dir name below' :: after) w0)
  /\ (forall p mw m u w0,
        exists k,
          announced
            (events (snd (process_documents_file_loop env p mw m u
                            (glob_star_dot_star children) w0)))
          = announced (events w0)
            ++ map entry_name (firstn k (filter selected_entry children)))
  /\ (forall p mw m u w0,
        never_stopped env -> stop_processing w0 = false ->
        announced
          (events (snd (process_documents_file_loop env p mw m u
                          (glob_star_dot_star children) w0)))
        = announced (events w0)
          ++ map entry_name (filter selected_entry children)).
Proof.
  intros children w'.
  split; [exact selected_spec |].
  split; [vm_compute; repeat split; reflexivity |].
  split.
  { intros Hd.
    assert (Hrun : main_run env args w
                   = (touch true ;;;
                      main_file_loop env args
                        (filter selected_entry children)) w).
    { unfold main_run. rewrite Hd. apply bind_ext. intros _ w0.
      rewrite main_file_loop_filter, filter_selected_glob. reflexivity. }
    split.
    { subst w'. unfold main_run, bind, touch. rewrite Hd.
      destruct (out_txt w); cbn [snd];
        now rewrite main_file_loop_announced, filter_selected_glob. }
    split; [exact Hrun |].
    intros Hnone. subst w'. rewrite Hrun, Hnone. unfold bind, touch.
    destruct (out_txt w) eqn:E; cbn; auto.
    unfold out_content. cbn. rewrite E. auto. }
  split; [intros; apply main_file_loop_not_recursive |].
  split.
  { intros p mw m u w0.
    destruct (process_documents_file_loop_announced env p mw m u
                (glob_star_dot_star children) w0) as [k Hk].
    exists k. now rewrite filter_selected_glob in Hk. }
  intros p mw m u w0 Hn Hs.
  rewrite (process_documents_file_loop_never_stopped env [] p mw m u _ Hn)
    by assumption.
  now rewrite main_file_loop_announced, filter_selected_glob.
Qed.

(** In the mixed directory a CLI run announces [a.TXT] and [b.Pdf], in this
    order, and nothing else. *)
Lemma enumeration_selects_supported_files_witness :
  announced (events (snd (main_run env_mixed_directory args_hello
                            world_start)))
  = [str "a.TXT"; str "b.Pdf"].
Proof.
  destruct (enumeration_selects_supported_files env_mixed_directory
              args_hello world_start) as [_ [_ [Hcli _]]].
  destruct (Hcli eq_refl) as [Hannounced _].
  exact Hannounced.
Defined.

(** ** Scenarios *)

Example http_500_is_recorded_and_the_run_goes_on :
  out_txt (snd (main_run env_http_500 args_hello world_start))
  = Some (record (str "a.txt") None
            (str "Error processing chunk: 500 Server Error: Internal Server Error for url: http://localhost:11434/api/generate")
          ++ record (str "b.txt") None
               (str "Error processing chunk: 500 Server Error: Internal Server Error for url: http://localhost:11434/api/generate"))
  /\ length (requests (snd (main_run env_http_500 args_hello world_start)))
     = 2.
Proof. split; vm_compute; reflexivity. Qed.

Example only_out_txt_and_a_picture :
  requests (snd (main_run env_nothing_to_do args_hello world_start)) = []
  /\ out_txt (snd (main_run env_nothing_to_do args_hello world_start))
     = Some []
  /\ events (snd (main_run env_nothing_to_do args_hello world_start)) = []
  /\ events (snd (gui_run env_nothing_to_do fields_hello world_start))
     = [EvOutputCleared; EvProcessingComplete].
Proof. repeat split; vm_compute; reflexivity. Qed.

Example stop_during_the_first_chunk :
  let w := snd (gui_run env_stop_during_first_chunk fields_one_word
                  world_start) in
  map (fun r => d_prompt (req_json r)) (requests w)
  = [str "Summarise" ++ [NL; NL] ++ str "Text: one"]
  /\ out_txt w = Some (record (str "a.txt") (Some 1%Z) (str "fine"))
  /\ events w
     = [EvOutputCleared; EvProcessingFile (str "a.txt"); EvStopRequested;
        EvResponse (str "a.txt") (Some 1%Z) (JStr (str "fine"));
        EvInterrupted; EvInterrupted; EvProcessingComplete].
Proof. repeat split; vm_compute; reflexivity. Qed.

Example three_chunks_in_order :
  out_txt (snd (main_run env_no_response_field args_one_word world_start))
  = Some []
  /\ out_txt
       (snd (main_run
               (mkEnv (listdir env_no_response_field)
                  (fun _ _ => answer_ok (str "fine")) (fun _ => false)
                  (fun _ => true))
               args_one_word world_start))
     = Some (record (str "a.txt") (Some 1%Z) (str "fine")
             ++ record (str "a.txt") (Some 2%Z) (str "fine")
             ++ record (str "a.txt") (Some 3%Z) (str "fine")).
Proof. split; vm_compute; reflexivity. Qed.

(** ** More on the chunker and the normalisation *)

Lemma chunk_loop_one_word_per_chunk (m : Z) (words : list text) :
  (m <= 1)%Z -> chunk_loop m words [] 0 = words.
Proof.
  intros Hm. induction words as [| w words IH]; [reflexivity |].
  cbn [chunk_loop]. cbv zeta.
  replace (0 + 1 >=? m)%Z with true by (symmetry; apply Z.geb_le; lia).
  cbn [app join]. now rewrite IH.
Qed.

(** X1.  With a limit of 1, 0 or a negative limit, [chunk_text] yields each
    word of the text as a chunk of its own. *)
Theorem chunk_text_one_word_per_chunk (t : text) (max_words : Z) :
  (max_words <= 1)%Z -> chunk_text t max_words = split t.
Proof. intros Hm. now apply chunk_loop_one_word_per_chunk. Qed.

Lemma chunk_text_one_word_per_chunk_witness :
  chunk_text (str "a b  c") (-3) = [str "a"; str "b"; str "c"].
Proof.
  exact (chunk_text_one_word_per_chunk (str "a b  c") (-3)
           ltac:(vm_compute; discriminate)).
Defined.

Lemma chunk_text_single (t : text) (max_words : Z) :
  split t <> [] ->
  (word_count t <= max_words)%Z ->
  chunk_text t max_words = [normalize t].
Proof.
  intros Hne Hle.
  assert (Hwc : (0 < word_count t)%Z).
  { unfold word_count. destruct (split t); [congruence | cbn; lia]. }
  assert (Hm : (0 < max_words)%Z) by lia.
  pose proof (group_loop_length _ Hm (split t) _ _ (buffer_ok_start _ Hm))
    as Hl.
  pose proof (group_loop_concat max_words (split t) [] 0) as Hc.
  rewrite chunk_text_groups.
  replace ((0 + Z.of_nat (length (split t)) + max_words - 1) / max_words)%Z
    with 1%Z in Hl.
  - destruct (group_loop max_words (split t) [] 0) as [| g [| g' gs]];
      cbn [length] in Hl; try lia.
    cbn in Hc. rewrite app_nil_r in Hc. subst g. cbn [map].
    now rewrite normalize_join_split.
  - unfold word_count in *.
    apply Z.div_unique with (r := (Z.of_nat (length (split t)) - 1)%Z); lia.
Qed.

(** X2.  A text that has a word and no more than [max_words] words is one
    chunk, the normalised text. *)
Theorem chunk_text_single_chunk (t : text) (max_words : Z) :
  split t <> [] ->
  (word_count t <= max_words)%Z ->
  chunk_text t max_words = [normalize t].
Proof. apply chunk_text_single. Qed.

Lemma chunk_text_single_chunk_witness :
  chunk_text (str " a  b ") 2 = [str "a b"].
Proof.
  exact (chunk_text_single_chunk (str " a  b ") 2
           ltac:(vm_compute; discriminate) ltac:(vm_compute; discriminate)).
Defined.

Lemma chunk_in_groups (t : text) (m : Z) (c : text) :
  In c (chunk_text t m) ->
  exists g, In g (group_loop m (split t) [] 0) /\ c = join [SP] g.
Proof.
  rewrite chunk_text_groups. intros H. apply in_map_iff in H.
  destruct H as [g [E Hg]]. exists g. auto.
Qed.

(** A chunk is normalised, has a word, and is within the limit. *)
Lemma chunk_payload (t : text) (m : Z) (c : text) :
  (0 < m)%Z -> In c (chunk_text t m) ->
  normalize c = c /\ split c <> [] /\ (word_count c <= m)%Z.
Proof.
  intros Hm Hc. destruct (chunk_in_groups t m c Hc) as [g [Hg ->]].
  pose proof (group_loop_wordlike m (split t) [] 0 (split_wordlike t)) as Hw.
  pose proof (group_loop_nonempty m (split t) [] 0) as Hn.
  pose proof (group_loop_bounded _ Hm (split t) _ _ (buffer_ok_start _ Hm))
    as Hb.
  rewrite Forall_forall in Hw, Hn, Hb.
  assert (Hs : split (join [SP] g) = g) by (apply split_join; auto).
  split; [now rewrite normalize_join_split, Hs |].
  split; [rewrite Hs; now apply Hn |].
  unfold word_count. rewrite Hs. now apply Hb.
Qed.

(** X3.  The chunker does not see the normalisation: the raw text and the
    normalised text have the same words, the same word count and the same
    chunks.  For a limit above 0 a chunk is itself normalised and is its own
    only chunk, so chunking again changes nothing. *)
Theorem chunk_text_after_normalize (t : text) (max_words : Z) :
  split (normalize t) = split t
  /\ word_count (normalize t) = word_count t
  /\ chunk_text (normalize t) max_words = chunk_text t max_words
  /\ ((0 < max_words)%Z ->
      forall c, In c (chunk_text t max_words) ->
                normalize c = c /\ chunk_text c max_words = [c]).
Proof.
  split; [apply split_normalize |].
  split; [apply word_count_normalize |].
  split; [unfold chunk_text; now rewrite split_normalize |].
  intros Hm c Hc.
  destruct (chunk_payload t max_words c Hm Hc) as [Hnorm [Hne Hle]].
  split; [exact Hnorm |].
  rewrite <- Hnorm at 2. now apply chunk_text_single.
Qed.

Lemma length_sub_ws (s : text) :
  forall b, length (sub_ws b s) <= length s.
Proof.
  induction s as [| c s IH]; intros b; [reflexivity |]. cbn.
  pose proof (IH true). pose proof (IH false).
  destruct (isspace c); [destruct b |]; cbn; lia.
Qed.

Lemma length_lstrip (s : text) : length (lstrip s) <= length s.
Proof.
  induction s as [| c s IH]; [reflexivity |]. cbn.
  destruct (isspace c); cbn; lia.
Qed.

Lemma length_rstrip (s : text) : length (rstrip s) <= length s.
Proof.
  unfold rstrip. rewrite length_rev.
  pose proof (length_lstrip (rev s)) as H. now rewrite length_rev in H.
Qed.

(** X4.  The normalisation is idempotent and never makes a text longer. *)
Theorem normalize_idempotent_and_not_longer (t : text) :
  normalize (normalize t) = normalize t
  /\ length (normalize t) <= length t.
Proof.
  split; [apply normalize_idempotent |].
  unfold normalize, strip, re_sub_ws.
  pose proof (length_rstrip (lstrip (sub_ws false t))).
  pose proof (length_lstrip (sub_ws false t)).
  pose proof (length_sub_ws t false). lia.
Qed.

(** ** More on the inference client *)

Lemma after_call_clock (env : Env) (r : Request) (w : World) :
  clock (after_call env r w) = S (clock w).
Proof.
  unfold after_call, blocking_step. cbn.
  destruct (user_stop env (clock w)); reflexivity.
Qed.

Lemma raise_for_status_ok (status : Z) (reason url : text) :
  ~ (400 <= status < 600)%Z -> raise_for_status status reason url = Ok tt.
Proof.
  intros H. unfold raise_for_status.
  destruct ((400 <=? status) && (status <? 500))%Z eqn:E1.
  - apply andb_true_iff in E1. rewrite Z.leb_le, Z.ltb_lt in E1. lia.
  - destruct ((500 <=? status) && (status <? 600))%Z eqn:E2; [| reflexivity].
    apply andb_true_iff in E2. rewrite Z.leb_le, Z.ltb_lt in E2. lia.
Qed.

Lemma raise_for_status_raises (status : Z) (reason url : text) (e : exn) :
  raise_for_status status reason url = Raise e ->
  (400 <= status < 600)%Z /\ is_RequestException e = true.
Proof.
  unfold raise_for_status.
  destruct ((400 <=? status) && (status <? 500))%Z eqn:E1.
  - intros H. inversion H. apply andb_true_iff in E1.
    rewrite Z.leb_le, Z.ltb_lt in E1. split; [lia | reflexivity].
  - destruct ((500 <=? status) && (status <? 600))%Z eqn:E2;
      [| discriminate].
    intros H. inversion H. apply andb_true_iff in E2.
    rewrite Z.leb_le, Z.ltb_lt in E2. split; [lia | reflexivity].
Qed.

(** X5.  A call of [process_text_with_ollama] sends one request, whatever
    the outcome: there is no retry, and [out.txt] is not touched.  The call
    never raises a [RequestException]; when it raises, the endpoint answered
    with a status outside 400-599 and a JSON body, and the exception is the
    [KeyError] of a missing ["response"] field or the [TypeError] of a body
    that is not an object. *)
Theorem process_text_with_ollama_sends_one_request (env : Env)
    (t p u m : text) (temp : Q) (k : option text) (w : World) :
  let r := build_request t p u m temp k in
  let res := fst (process_text_with_ollama env t p u m temp k w) in
  let w' := snd (process_text_with_ollama env t p u m temp k w) in
  requests w' = requests w ++ [r]
  /\ out_txt w' = out_txt w
  /\ clock w' = S (clock w)
  /\ (forall msg, res <> Raise (RequestException msg))
  /\ (forall e, res = Raise e ->
        exists status reason j,
          endpoint env (length (requests w)) r
          = HttpResponse status reason (Json j)
          /\ ~ (400 <= status < 600)%Z
          /\ (e = KeyError (str "response") \/ exists msg, e = TypeError msg)).
Proof.
  intros r res w'. subst res w'. rewrite process_text_with_ollama_step.
  fold r. cbn [fst snd].
  split; [apply after_call_requests |].
  split; [apply after_call_out |].
  split; [apply after_call_clock |].
  unfold client_value, answer_value.
  destruct (endpoint env (length (requests w)) r)
    as [msg | status reason body].
  { cbn. split; [discriminate | discriminate]. }
  destruct (raise_for_status status reason (req_url r)) as [[] | e0] eqn:Es.
  2:{ destruct (raise_for_status_raises _ _ _ _ Es) as [_ He0].
      rewrite He0. split; discriminate. }
  assert (Hstatus : ~ (400 <= status < 600)%Z).
  { intros H. destruct (client_value_bad_status status reason body r H)
      as [msg Hm].
    unfold client_value, answer_value in Hm. rewrite Es in Hm.
    unfold raise_for_status in Es.
    destruct ((400 <=? status) && (status <? 500))%Z eqn:E1;
      [discriminate |].
    destruct ((500 <=? status) && (status <? 600))%Z eqn:E2;
      [discriminate |].
    apply andb_false_iff in E1, E2.
    rewrite !Z.leb_gt, !Z.ltb_ge in *. lia. }
  destruct body as [msg | j]; cbn [response_json].
  { cbn. split; discriminate. }
  unfold subscript.
  destruct j; cbn [is_RequestException];
    try (split; [discriminate |]; intros e He; inversion He; subst;
         eexists; eexists; eexists;
         (split; [reflexivity |]); (split; [exact Hstatus |]);
         right; eexists; reflexivity).
  destruct (lookup (str "response") fields) as [v |];
    cbn [is_RequestException]; (split; [discriminate |]);
    intros e He; inversion He; subst.
  eexists; eexists; eexists.
  split; [reflexivity |]. split; [exact Hstatus |]. now left.
Qed.

(** X6.  On a response whose status is outside 400-599 and whose body is a
    JSON object with a ["response"] field, the client returns the value of
    the field as it is. *)
Theorem process_text_with_ollama_returns_the_field (env : Env)
    (t p u m : text) (temp : Q) (k : option text) (w : World) (status : Z)
    (reason : text) (fields : list (text * json)) (v : json) :
  endpoint env (length (requests w)) (build_request t p u m temp k)
  = HttpResponse status reason (Json (JObj fields)) ->
  ~ (400 <= status < 600)%Z ->
  lookup (str "response") fields = Some v ->
  fst (process_text_with_ollama env t p u m temp k w) = Ok v.
Proof.
  intros He Hs Hl. rewrite process_text_with_ollama_step. cbn [fst].
  rewrite He. unfold client_value, answer_value.
  rewrite raise_for_status_ok by assumption. cbn [response_json subscript].
  now rewrite Hl.
Qed.

Lemma process_text_with_ollama_returns_the_field_witness :
  fst (process_text_with_ollama env_hello (str "hello") (str "Summarise")
         (str "http://localhost:11434") (str "m") (6 # 10)%Q None
         world_start)
  = Ok (JStr (str "fine")).
Proof.
  exact (process_text_with_ollama_returns_the_field env_hello (str "hello")
           (str "Summarise") (str "http://localhost:11434") (str "m")
           (6 # 10)%Q None world_start 200 (str "OK")
           [(str "response", JStr (str "fine"))] (JStr (str "fine"))
           eq_refl ltac:(lia) eq_refl).
Defined.

(** ** More on the runs *)

Lemma main_entry_ok (env : Env) (args : Args) (f : Entry) (w : World) :
  fst (main_entry env args f w) = Ok tt.
Proof.
  unfold main_entry. destruct (selected (entry_name f)); [| reflexivity].
  unfold bind, emit_event, try_except, any_Exception.
  destruct (main_file_body env args f _) as [[[] | e] w1]; reflexivity.
Qed.

Lemma process_documents_entry_ok (env : Env) (p : text) (mw : Z)
    (m u : text) (f : Entry) (w : World) :
  fst (process_documents_entry env p mw m u f w) = Ok tt.
Proof.
  unfold process_documents_entry.
  destruct (selected (entry_name f)); [| reflexivity].
  unfold bind, emit_event, try_except, any_Exception.
  destruct (process_documents_file_body env p mw m u f _)
    as [[[] | e] w1]; reflexivity.
Qed.

Lemma main_file_loop_step (env : Env) (args : Args) (f : Entry)
    (files : list Entry) (w : World) :
  main_file_loop env args (f :: files) w
  = main_file_loop env args files (snd (main_entry env args f w)).
Proof.
  cbn [main_file_loop]. fold (main_entry env args f). unfold bind.
  pose proof (main_entry_ok env args f w) as H.
  destruct (main_entry env args f w) as [[[] | e] w1]; cbn in H;
    [reflexivity | discriminate].
Qed.

Lemma process_documents_file_loop_step (env : Env) (p : text) (mw : Z)
    (m u : text) (f : Entry) (files : list Entry) (w : World) :
  process_documents_file_loop env p mw m u (f :: files) w
  = if stop_processing w then (Ok tt, add_event EvInterrupted w)
    else process_documents_file_loop env p mw m u files
           (snd (process_documents_entry env p mw m u f w)).
Proof.
  cbn [process_documents_file_loop]. unfold bind at 1, get_stop.
  destruct (stop_processing w); [reflexivity |].
  fold (process_documents_entry env p mw m u f). unfold bind.
  pose proof (process_documents_entry_ok env p mw m u f w) as H.
  destruct (process_documents_entry env p mw m u f w) as [[[] | e] w1];
    cbn in H; [reflexivity | discriminate].
Qed.

Lemma main_file_loop_ok (env : Env) (args : Args) (files : list Entry) :
  forall w, fst (main_file_loop env args files w) = Ok tt.
Proof.
  induction files as [| f files IH]; intros w; [reflexivity |].
  rewrite main_file_loop_step. apply IH.
Qed.

Lemma process_documents_file_loop_ok (env : Env) (p : text) (mw : Z)
    (m u : text) (files : list Entry) :
  forall w, fst (process_documents_file_loop env p mw m u files w) = Ok tt.
Proof.
  induction files as [| f files IH]; intros w; [reflexivity |].
  rewrite process_documents_file_loop_step.
  destruct (stop_processing w); [reflexivity | apply IH].
Qed.

Lemma process_documents_ok (env : Env) (target_dir p : text) (mw : Z)
    (m u : text) (w : World) :
  process_documents env target_dir p mw m u w
  = (Ok tt,
     set_buttons true false
       (add_event EvProcessingComplete
          (snd (process_documents_file_loop env p mw m u
                  (glob_star_dot_star (listdir env target_dir)) w)))).
Proof.
  unfold process_documents, bind.
  pose proof (process_documents_file_loop_ok env p mw m u
                (glob_star_dot_star (listdir env target_dir)) w) as H.
  destruct (process_documents_file_loop env p mw m u _ w) as [[[] | e] w1];
    cbn in H; [reflexivity | discriminate].
Qed.

(** X7.  The [touch] of [out.txt] stands outside every [try].  When the
    target directory does not exist it raises [FileNotFoundError]: the CLI's
    run ends with it before a file is looked at, and the GUI's
    [start_processing] ends with it after the buttons were switched and the
    output cleared, so that no worker is started and Start stays disabled;
    in both no request is sent and no file is created. *)
Theorem missing_directory_ends_the_run (env : Env) (args : Args)
    (f : Fields) (mw : Z) (w : World) :
  let e := OSError (str "No such file or directory") in
  (isdir env (directory args) = false ->
   main_run env args w = (Raise e, w))
  /\ (isdir env (directory_var f) = false ->
      py_int (max_words_var f) = Some mw ->
      directory_var f <> [] -> strip (prompt_text f) <> [] ->
      model_var f <> [] -> api_url_var f <> [] ->
      let w' := snd (gui_run env f w) in
      fst (gui_run env f w) = Raise e
      /\ fst (start_processing env f w) = Raise e
      /\ requests w' = requests w /\ out_txt w' = out_txt w
      /\ clock w' = clock w
      /\ events w' = events w ++ [EvOutputCleared]
      /\ start_button w' = false /\ stop_button w' = true).
Proof.
  intros e. split.
  - intros Hd. unfold main_run, bind, touch. now rewrite Hd.
  - intros Hd Hi H1 H2 H3 H4 w'. subst w'.
    unfold gui_run, bind at 1, start_processing. rewrite Hi, Hd.
    destruct (directory_var f); [congruence |].
    destruct (strip (prompt_text f)); [congruence |].
    destruct (model_var f); [congruence |].
    destruct (api_url_var f); [congruence |].
    cbn. auto 10.
Qed.

Lemma missing_directory_ends_the_run_witness :
  main_run env_missing_directory args_hello world_start
  = (Raise (OSError (str "No such file or directory")), world_start)
  /\ fst (gui_run env_missing_directory fields_hello world_start)
     = Raise (OSError (str "No such file or directory"))
  /\ start_button (snd (gui_run env_missing_directory fields_hello
                          world_start)) = false.
Proof.
  destruct (missing_directory_ends_the_run env_missing_directory args_hello
              fields_hello 3000 world_start) as [Hcli Hgui].
  destruct Hgui as [Hraise [_ [_ [_ [_ [_ [Hstart _]]]]]]];
    try reflexivity; try (vm_compute; discriminate).
  split; [exact (Hcli eq_refl) | split; [exact Hraise | exact Hstart]].
Defined.

(** X8.  The GUI's worker always reaches its end: whether the run was
    interrupted or not and whatever failed on the way, the last message is
    "Processing complete", the Start button is enabled again and the Stop
    button disabled. *)
Theorem process_documents_always_completes (env : Env)
    (target_dir p : text) (mw : Z) (m u : text) (w : World) :
  let w' := snd (process_documents env target_dir p mw m u w) in
  (exists evs, events w' = events w ++ evs ++ [EvProcessingComplete])
  /\ start_button w' = true
  /\ stop_button w' = false.
Proof.
  intros w'. subst w'. rewrite process_documents_ok. cbn [snd].
  split; [| split; reflexivity].
  destruct (g_process_documents_file_loop env p mw m u
              (glob_star_dot_star (listdir env target_dir)) w)
    as [_ [_ [[evs [Hev _]] _]]].
  exists evs. cbn. rewrite Hev. now rewrite <- app_assoc.
Qed.




(** ** What a run sends *)

Lemma extract_text_from_file_requests (env : Env) (f : Entry) (w : World) :
  requests (snd (extract_text_from_file env f w)) = requests w.
Proof.
  apply (s_extract_text_from_file env same_requests any_event);
    unfold same_requests; intros; cbn; try congruence; try exact I.
  unfold blocking_step. cbn. destruct (user_stop env (clock w0)); reflexivity.
Qed.

Lemma single_shot_requests (env : Env) (args : Args) (name t : text)
    (w : World) :
  requests (snd (single_shot env args name t w))
  = requests w ++ [request_for args t].
Proof. exact (proj1 (single_shot_sent_whole env args name t w)). Qed.

Lemma In_firstn {A} (k : nat) (l : list A) (x : A) :
  In x (firstn k l) -> In x l.
Proof.
  revert l. induction k as [| k IH]; intros [| y l]; cbn; try tauto.
  intros [H | H]; [now left | right; now apply IH].
Qed.

Lemma chunks_payload_ok (t : text) (m : Z) (k : nat) :
  (0 < m)%Z -> Forall (payload_ok m) (firstn k (chunk_text t m)).
Proof.
  intros Hm. apply Forall_forall. intros c Hc.
  apply In_firstn in Hc.
  destruct (chunk_payload t m c Hm Hc) as [H1 [_ H2]]. now split.
Qed.

Lemma main_file_body_payloads (env : Env) (args : Args) (f : Entry)
    (w : World) :
  (0 < max_words args)%Z ->
  exists ts,
    requests (snd (main_file_body env args f w))
    = requests w ++ map (request_for args) ts
    /\ Forall (payload_ok (max_words args)) ts.
Proof.
  intros Hm.
  pose proof (extract_text_from_file_requests env f w) as Hx.
  destruct (extract_text_from_file env f w) as [[raw | e] w1] eqn:He;
    cbn [snd] in Hx.
  2:{ exists []. unfold main_file_body, bind. rewrite He. cbn.
      now rewrite app_nil_r. }
  destruct raw as [| c raw].
  { exists []. unfold main_file_body, bind. rewrite He. cbn.
    now rewrite app_nil_r. }
  rewrite (main_file_body_unfold env args f (c :: raw) w w1 He)
    by discriminate.
  destruct (_ <=? _)%Z eqn:Hle.
  - exists [normalize (c :: raw)]. rewrite single_shot_requests, Hx.
    split; [reflexivity |]. constructor; [| constructor].
    split; [apply normalize_idempotent | now apply Z.leb_le].
  - destruct (main_chunk_loop_prefix env args (entry_name f)
                (chunk_text (normalize (c :: raw)) (max_words args)) 1 w1)
      as [k Hk].
    exists (firstn k (chunk_text (normalize (c :: raw)) (max_words args))).
    rewrite Hk, Hx. split; [reflexivity | now apply chunks_payload_ok].
Qed.

Lemma process_documents_file_body_payloads (env : Env) (p : text) (mw : Z)
    (m u : text) (f : Entry) (w : World) :
  (0 < mw)%Z ->
  exists ts,
    requests (snd (process_documents_file_body env p mw m u f w))
    = requests w ++ map (request_for (gui_args [] p mw m u)) ts
    /\ Forall (payload_ok mw) ts.
Proof.
  intros Hm.
  pose proof (extract_text_from_file_requests env f w) as Hx.
  destruct (extract_text_from_file env f w) as [[raw | e] w1] eqn:He;
    cbn [snd] in Hx.
  2:{ exists []. unfold process_documents_file_body, bind. rewrite He. cbn.
      now rewrite app_nil_r. }
  destruct raw as [| c raw].
  { exists []. unfold process_documents_file_body, bind. rewrite He. cbn.
    now rewrite app_nil_r. }
  rewrite (process_documents_file_body_unfold env [] p mw m u f (c :: raw)
             w w1 He) by discriminate.
  destruct (_ <=? _)%Z eqn:Hle.
  - exists [normalize (c :: raw)]. rewrite single_shot_requests, Hx.
    split; [reflexivity |]. constructor; [| constructor].
    split; [apply normalize_idempotent | now apply Z.leb_le].
  - destruct (process_documents_chunk_loop_prefix env p mw m u
                (entry_name f) (chunk_text (normalize (c :: raw)) mw) 1 w1)
      as [k Hk].
    exists (firstn k (chunk_text (normalize (c :: raw)) mw)).
    rewrite Hk, Hx. split; [reflexivity | now apply chunks_payload_ok].
Qed.

Lemma main_entry_payloads (env : Env) (args : Args) (f : Entry)
    (w : World) :
  (0 < max_words args)%Z ->
  exists ts,
    requests (snd (main_entry env args f w))
    = requests w ++ map (request_for args) ts
    /\ Forall (payload_ok (max_words args)) ts.
Proof.
  intros Hm. unfold main_entry.
  destruct (selected (entry_name f)).
  - destruct (main_file_body_payloads env args f
                (add_event (EvProcessingFile (entry_name f)) w) Hm)
      as [ts [Hts Hok]].
    exists ts. split; [| exact Hok].
    unfold bind, emit_event, try_except, any_Exception.
    destruct (main_file_body env args f _) as [[[] | e] w1];
      cbn [snd] in *; exact Hts.
  - exists []. cbn. now rewrite app_nil_r.
Qed.

Lemma process_documents_entry_payloads (env : Env) (p : text) (mw : Z)
    (m u : text) (f : Entry) (w : World) :
  (0 < mw)%Z ->
  exists ts,
    requests (snd (process_documents_entry env p mw m u f w))
    = requests w ++ map (request_for (gui_args [] p mw m u)) ts
    /\ Forall (payload_ok mw) ts.
Proof.
  intros Hm. unfold process_documents_entry.
  destruct (selected (entry_name f)).
  - destruct (process_documents_file_body_payloads env p mw m u f
                (add_event (EvProcessingFile (entry_name f)) w) Hm)
      as [ts [Hts Hok]].
    exists ts. split; [| exact Hok].
    unfold bind, emit_event, try_except, any_Exception.
    destruct (process_documents_file_body env p mw m u f _)
      as [[[] | e] w1]; cbn [snd] in *; exact Hts.
  - exists []. cbn. now rewrite app_nil_r.
Qed.

Lemma main_file_loop_payloads (env : Env) (args : Args)
    (files : list Entry) :
  (0 < max_words args)%Z ->
  forall w,
  exists ts,
    requests (snd (main_file_loop env args files w))
    = requests w ++ map (request_for args) ts
    /\ Forall (payload_ok (max_words args)) ts.
Proof.
  intros Hm. induction files as [| f files IH]; intros w.
  - exists []. cbn. now rewrite app_nil_r.
  - rewrite main_file_loop_step.
    destruct (main_entry_payloads env args f w Hm) as [ts1 [H1 Hok1]].
    destruct (IH (snd (main_entry env args f w))) as [ts2 [H2 Hok2]].
    exists (ts1 ++ ts2). rewrite H2, H1, map_app, app_assoc.
    split; [reflexivity | now apply Forall_app].
Qed.

Lemma process_documents_file_loop_payloads (env : Env) (p : text) (mw : Z)
    (m u : text) (files : list Entry) :
  (0 < mw)%Z ->
  forall w,
  exists ts,
    requests (snd (process_documents_file_loop env p mw m u files w))
    = requests w ++ map (request_for (gui_args [] p mw m u)) ts
    /\ Forall (payload_ok mw) ts.
Proof.
  intros Hm. induction files as [| f files IH]; intros w.
  - exists []. cbn. now rewrite app_nil_r.
  - rewrite process_documents_file_loop_step.
    destruct (stop_processing w).
    { exists []. cbn. now rewrite app_nil_r. }
    destruct (process_documents_entry_payloads env p mw m u f w Hm)
      as [ts1 [H1 Hok1]].
    destruct (IH (snd (process_documents_entry env p mw m u f w)))
      as [ts2 [H2 Hok2]].
    exists (ts1 ++ ts2). rewrite H2, H1, map_app, app_assoc.
    split; [reflexivity | now apply Forall_app].
Qed.

(** X10.  With a limit above 0, every request of a run carries a payload
    that is normalised and has at most [max_words] words, composed with the
    prompt as [prompt + "\n\nText: " + payload], and goes to
    [url + "/api/generate"] with the configured model, no streaming and the
    context hint 20480.  A request of the CLI carries the [Authorization]
    header exactly when an API key that is not empty is configured; a
    request of the GUI never carries it. *)
Theorem requests_carry_bounded_payloads (env : Env) (args : Args)
    (target_dir p : text) (mw : Z) (m u : text) (w : World) :
  (0 < max_words args)%Z ->
  (0 < mw)%Z ->
  (exists ts,
     requests (snd (main_run env args w))
     = requests w ++ map (request_for args) ts
     /\ Forall (payload_ok (max_words args)) ts)
  /\ (exists ts,
        requests (snd (process_documents env target_dir p mw m u w))
        = requests w ++ map (request_for (gui_args target_dir p mw m u)) ts
        /\ Forall (payload_ok mw) ts)
  /\ (forall t,
        request_for args t
        = mkRequest (url args ++ str "/api/generate")
            ((str "Content-Type", str "application/json")
             :: match api_key args with
                | Some (c :: key) =>
                    [(str "Authorization", str "Bearer " ++ c :: key)]
                | _ => []
                end)
            (mkData (model args) (prompt args ++ [NL; NL] ++ str "Text: " ++ t)
               false (temperature args) 20480))
  /\ (forall t,
        req_headers (request_for (gui_args target_dir p mw m u) t)
        = [(str "Content-Type", str "application/json")]).
Proof.
  intros Hm Hmw. split; [| split; [| split]].
  - unfold main_run, bind, touch.
    destruct (isdir env (directory args));
      [| exists []; cbn; now rewrite app_nil_r].
    destruct (out_txt w); cbn [snd];
      [exact (main_file_loop_payloads env args _ Hm w)
      | exact (main_file_loop_payloads env args _ Hm
                 (set_out (Some []) w))].
  - rewrite process_documents_ok. cbn [snd].
    exact (process_documents_file_loop_payloads env p mw m u _ Hmw w).
  - intros t. unfold request_for, build_request.
    destruct (api_key args) as [[| c key] |]; reflexivity.
  - reflexivity.
Qed.

Lemma requests_carry_bounded_payloads_witness :
  exists ts,
    requests (snd (main_run env_no_response_field args_one_word world_start))
    = requests world_start ++ map (request_for args_one_word) ts
    /\ Forall (payload_ok 1) ts.
Proof.
  exact (proj1 (requests_carry_bounded_payloads env_no_response_field
                  args_one_word (str "docs") (str "Summarise") 1 (str "m")
                  (str "http://localhost:11434") world_start
                  eq_refl eq_refl)).
Defined.

(** ** Text extraction *)

Lemma extract_text_from_file_out (env : Env) (f : Entry) (w : World) :
  out_txt (snd (extract_text_from_file env f w)) = out_txt w.
Proof.
  apply (s_extract_text_from_file env same_out any_event);
    unfold same_out; intros; cbn; try congruence; try exact I.
  unfold blocking_step. cbn. destruct (user_stop env (clock w0)); reflexivity.
Qed.

Lemma split_go_app_space (a : text) (c : char) (b : text) :
  isspace c = true ->
  forall cur, split_go cur (a ++ c :: b) = split_go cur a ++ split b.
Proof.
  intros Hc. induction a as [| d a IH]; intros cur.
  - cbn. rewrite Hc. destruct cur; reflexivity.
  - cbn. destruct (isspace d).
    + rewrite IH. destruct cur; reflexivity.
    + apply IH.
Qed.

(** Whitespace between two texts keeps their words apart. *)
Lemma split_app_space (a : text) (c : char) (b : text) :
  isspace c = true -> split (a ++ c :: b) = split a ++ split b.
Proof. intros Hc. now apply split_go_app_space. Qed.

Lemma split_lines (parts : list text) :
  split (concat (map (fun part => part ++ [NL]) parts))
  = concat (map split parts).
Proof.
  induction parts as [| part parts IH]; [reflexivity |].
  cbn [map concat]. rewrite <- app_assoc. cbn [app].
  rewrite split_app_space by reflexivity. now rewrite IH.
Qed.

Lemma text_eqb_refl (a : text) : text_eqb a a = true.
Proof. now apply text_eqb_eq. Qed.

Lemma extract_pdf_branch (env : Env) (e : Entry) :
  lower (suffix (entry_name e)) = str ".pdf" ->
  extract_text_from_file env e
  = (blocking_step env ;;; extract_text_from_pdf e).
Proof.
  intros H. unfold extract_text_from_file. rewrite H. reflexivity.
Qed.

Lemma extract_docx_branch (env : Env) (e : Entry) :
  lower (suffix (entry_name e)) = str ".docx"
  \/ lower (suffix (entry_name e)) = str ".doc" ->
  extract_text_from_file env e
  = (blocking_step env ;;; extract_text_from_docx e).
Proof.
  intros [H | H]; unfold extract_text_from_file; rewrite H; reflexivity.
Qed.

Lemma extract_txt_branch (env : Env) (e : Entry) :
  lower (suffix (entry_name e)) = str ".txt" ->
  extract_text_from_file env e
  = (blocking_step env ;;;
     try_except (lift (read_utf8 (entry_data e))) is_UnicodeDecodeError
       (fun _ =>
          try_except (lift (read_latin1 (entry_data e))) any_Exception
            (fun x =>
               emit_event (EvErrorExtracting (entry_name e) x) ;;; ret []))).
Proof.
  intros H. unfold extract_text_from_file. rewrite H. reflexivity.
Qed.

(** X11.  The text of a PDF is the text of its pages, each followed by a
    newline, and the text of a Word document is its paragraphs, each
    followed by a newline.  The words of the extracted text are the words
    of the pages (the paragraphs) in order: no word runs across a page or
    paragraph boundary.  A document with a page (a paragraph) never
    extracts to the empty text. *)
Theorem extracted_words_are_the_words_of_the_pages (env : Env) (e : Entry)
    (w : World) (parts : list text) :
  (lower (suffix (entry_name e)) = str ".pdf"
   /\ pdf_pages (entry_data e) = Ok parts)
  \/ ((lower (suffix (entry_name e)) = str ".docx"
       \/ lower (suffix (entry_name e)) = str ".doc")
      /\ docx_paragraphs (entry_data e) = Ok parts) ->
  exists raw,
    fst (extract_text_from_file env e w) = Ok raw
    /\ raw = concat (map (fun part => part ++ [NL]) parts)
    /\ split raw = concat (map split parts)
    /\ (parts <> [] -> raw <> []).
Proof.
  intros H. exists (concat (map (fun part => part ++ [NL]) parts)).
  split.
  - destruct H as [[Hx Hp] | [Hx Hp]].
    + rewrite (extract_pdf_branch env e Hx).
      unfold bind, blocking_step, extract_text_from_pdf. cbn.
      now rewrite Hp.
    + rewrite (extract_docx_branch env e Hx).
      unfold bind, blocking_step, extract_text_from_docx. cbn.
      now rewrite Hp.
  - split; [reflexivity |]. split; [apply split_lines |].
    destruct parts as [| part parts]; [congruence |]. intros _.
    cbn. destruct part; discriminate.
Qed.

Lemma extracted_words_are_the_words_of_the_pages_witness :
  exists raw,
    fst (extract_text_from_file env_hello file_report world_start) = Ok raw
    /\ raw = str "page one" ++ [NL] ++ str "page  two" ++ [NL]
    /\ split raw = [str "page"; str "one"; str "page"; str "two"]
    /\ ([str "page one"; str "page  two"] <> [] -> raw <> []).
Proof.
  exact (extracted_words_are_the_words_of_the_pages env_hello file_report
           world_start [str "page one"; str "page  two"]
           (or_introl (conj eq_refl eq_refl))).
Defined.

(** X12.  [extract_text_from_file] raises in one case only: a [.txt] file
    whose UTF-8 read raises something other than [UnicodeDecodeError], and
    then it raises that exception.  On [UnicodeDecodeError] the file is
    read again as Latin-1, and a failure of that read gives the empty text;
    a PDF, a Word document and an unsupported extension never raise. *)
Theorem extract_text_from_file_raises_only_for_txt (env : Env) (e : Entry)
    (w : World) :
  (forall x,
     fst (extract_text_from_file env e w) = Raise x <->
     lower (suffix (entry_name e)) = str ".txt"
     /\ read_utf8 (entry_data e) = Raise x
     /\ is_UnicodeDecodeError x = false)
  /\ (lower (suffix (entry_name e)) = str ".txt" ->
      forall x, read_utf8 (entry_data e) = Raise x ->
      is_UnicodeDecodeError x = true ->
      fst (extract_text_from_file env e w)
      = match read_latin1 (entry_data e) with
        | Ok t => Ok t
        | Raise _ => Ok []
        end)
  /\ (lower (suffix (entry_name e)) = str ".txt" ->
      forall t, read_utf8 (entry_data e) = Ok t ->
      fst (extract_text_from_file env e w) = Ok t).
Proof.
  split; [| split].
  - intros x. unfold extract_text_from_file.
    destruct (text_eqb (lower (suffix (entry_name e))) (str ".txt")) eqn:Et.
    + apply text_eqb_eq in Et.
      unfold bind, blocking_step, try_except, lift, any_Exception,
        emit_event, ret. cbn [fst snd].
      destruct (read_utf8 (entry_data e)) as [t | y].
      * split; [discriminate | intros [_ [H _]]; discriminate].
      * destruct (is_UnicodeDecodeError y) eqn:Ey.
        -- destruct (read_latin1 (entry_data e)); cbn [fst];
             (split; [discriminate |]); intros [_ [H Hx]];
             inversion H; subst; congruence.
        -- cbn [fst]. split.
           ++ intros H. inversion H; subst. auto.
           ++ intros [_ [H _]]. exact H.
    + assert (Hne : lower (suffix (entry_name e)) <> str ".txt").
      { intros H. rewrite H, text_eqb_refl in Et. discriminate. }
      split; [| intros [H _]; congruence].
      intros H. exfalso. revert H.
      unfold extract_text_from_pdf, extract_text_from_docx.
      destruct (text_eqb _ (str ".pdf")).
      * unfold bind, blocking_step. cbn [fst snd].
        destruct (pdf_pages (entry_data e)); discriminate.
      * destruct (text_in _ _).
        -- unfold bind, blocking_step. cbn [fst snd].
           destruct (docx_paragraphs (entry_data e)); discriminate.
        -- discriminate.
  - intros Hx x Hr Hu. rewrite (extract_txt_branch env e Hx).
    unfold bind, blocking_step, try_except, lift, any_Exception, emit_event,
      ret. cbn [fst snd]. rewrite Hr, Hu.
    destruct (read_latin1 (entry_data e)); reflexivity.
  - intros Hx t Hr. rewrite (extract_txt_branch env e Hx).
    unfold bind, blocking_step, try_except, lift. cbn [fst snd].
    now rewrite Hr.
Qed.

(** ** Files that yield no request *)

Lemma selected_extension (name : text) :
  selected name = true ->
  In (lower (suffix name)) supported_extensions.
Proof.
  unfold selected. intros H. apply andb_true_iff in H.
  now apply text_in_In.
Qed.

Lemma extract_text_from_file_supported (env : Env) (e : Entry) :
  selected (entry_name e) = true ->
  steps (grows supported_event) (extract_text_from_file env e).
Proof.
  intros Hsel. apply selected_extension in Hsel.
  assert (Hb : steps (grows supported_event) (blocking_step env))
    by (intros w; apply grows_blocking_step; exact I).
  assert (Hpdf : steps (grows supported_event) (extract_text_from_pdf e)).
  { unfold extract_text_from_pdf. destruct (pdf_pages (entry_data e)).
    - apply steps_ret, grows_refl.
    - apply steps_bind; [apply grows_trans | | intros _;
                                                apply steps_ret, grows_refl].
      intros w. apply grows_add_event. exact I. }
  assert (Hdocx : steps (grows supported_event) (extract_text_from_docx e)).
  { unfold extract_text_from_docx.
    destruct (docx_paragraphs (entry_data e)).
    - apply steps_ret, grows_refl.
    - apply steps_bind; [apply grows_trans | | intros _;
                                                apply steps_ret, grows_refl].
      intros w. apply grows_add_event. exact I. }
  destruct Hsel as [H | [H | [H | [H | []]]]].
  - rewrite (extract_txt_branch env e (eq_sym H)).
    apply steps_bind; [apply grows_trans | exact Hb | intros _].
    apply steps_try_except;
      [apply grows_trans | apply steps_lift, grows_refl | intros _].
    apply steps_try_except;
      [apply grows_trans | apply steps_lift, grows_refl | intros x].
    apply steps_bind; [apply grows_trans | | intros _;
                                              apply steps_ret, grows_refl].
    intros w. apply grows_add_event. exact I.
  - rewrite (extract_pdf_branch env e (eq_sym H)).
    apply steps_bind; [apply grows_trans | exact Hb | intros _; exact Hpdf].
  - rewrite (extract_docx_branch env e (or_intror (eq_sym H))).
    apply steps_bind; [apply grows_trans | exact Hb | intros _; exact Hdocx].
  - rewrite (extract_docx_branch env e (or_introl (eq_sym H))).
    apply steps_bind; [apply grows_trans | exact Hb | intros _; exact Hdocx].
Qed.

(** X13.  The drivers' filter and the extractor's dispatch agree: for an
    entry the drivers select, [extract_text_from_file] takes one of its
    three readers and never reports an unsupported file type; for an entry
    with any other extension it returns the empty text with that report
    and without reading anything. *)
Theorem selected_entries_have_a_reader (env : Env) (e : Entry) (w : World) :
  (selected (entry_name e) = true ->
   exists evs,
     events (snd (extract_text_from_file env e w)) = events w ++ evs
     /\ forall x, ~ In (EvUnsupportedFileType x) evs)
  /\ (~ In (lower (suffix (entry_name e))) supported_extensions ->
      extract_text_from_file env e w
      = (Ok [],
         add_event (EvUnsupportedFileType (lower (suffix (entry_name e))))
           (snd (blocking_step env w)))).
Proof.
  split.
  - intros Hsel.
    destruct (extract_text_from_file_supported env e Hsel w)
      as [_ [_ [[evs [Hev Hq]] _]]].
    exists evs. split; [exact Hev |]. intros x Hin.
    rewrite Forall_forall in Hq. exact (Hq _ Hin).
  - intros Hno. unfold extract_text_from_file.
    assert (H : forall x, In x supported_extensions ->
                          text_eqb (lower (suffix (entry_name e))) x = false).
    { intros x Hx. destruct (text_eqb _ x) eqn:E; [| reflexivity].
      apply text_eqb_eq in E. subst. contradiction. }
    rewrite (H (str ".txt")) by (cbn; auto).
    rewrite (H (str ".pdf")) by (cbn; auto).
    unfold text_in. cbn [existsb].
    rewrite (H (str ".docx")) by (cbn; auto).
    rewrite (H (str ".doc")) by (cbn; auto).
    reflexivity.
Qed.

(** X14.  A file whose extraction gives the empty text is skipped by both
    drivers: the only effect after the extraction is the "No text
    extracted" message, no request is sent and [out.txt] is not written.
    A PDF or a Word document whose reader fails is such a file: its
    extraction reports the failure and gives the empty text. *)
Theorem documents_without_text_are_skipped (env : Env) (args : Args)
    (p : text) (mw : Z) (m u : text) (f : Entry) (w w1 : World) :
  (extract_text_from_file env f w = (Ok [], w1) ->
   main_file_body env args f w
   = (Ok tt, add_event (EvNoTextExtracted (entry_name f)) w1)
   /\ process_documents_file_body env p mw m u f w
      = (Ok tt, add_event (EvNoTextExtracted (entry_name f)) w1)
   /\ requests w1 = requests w
   /\ out_txt w1 = out_txt w)
  /\ (forall x,
        (lower (suffix (entry_name f)) = str ".pdf"
         /\ pdf_pages (entry_data f) = Raise x)
        \/ ((lower (suffix (entry_name f)) = str ".docx"
             \/ lower (suffix (entry_name f)) = str ".doc")
            /\ docx_paragraphs (entry_data f) = Raise x) ->
        extract_text_from_file env f w
        = (Ok [],
           add_event (EvErrorExtracting (entry_name f) x)
             (snd (blocking_step env w)))).
Proof.
  split.
  - intros He.
    pose proof (extract_text_from_file_requests env f w) as Hr.
    pose proof (extract_text_from_file_out env f w) as Ho.
    rewrite He in Hr, Ho. cbn [snd] in Hr, Ho.
    unfold main_file_body, process_documents_file_body, bind.
    rewrite He. cbn. auto.
  - intros x [[Hx Hp] | [Hx Hp]].
    + rewrite (extract_pdf_branch env f Hx).
      unfold bind, blocking_step, extract_text_from_pdf. cbn.
      now rewrite Hp.
    + rewrite (extract_docx_branch env f Hx).
      unfold bind, blocking_step, extract_text_from_docx. cbn.
      now rewrite Hp.
Qed.

(** X15.  A selected [.txt] entry that cannot be opened (a directory named
    like a text file, a file that cannot be read) costs the run one
    diagnostic: its treatment returns normally with "Error processing",
    sends no request and writes nothing, and the loop goes on with the
    entries that follow. *)
Theorem unreadable_text_file_is_reported (env : Env) (args : Args)
    (f : Entry) (rest : list Entry) (w : World) (x : exn) :
  selected (entry_name f) = true ->
  lower (suffix (entry_name f)) = str ".txt" ->
  read_utf8 (entry_data f) = Raise x ->
  is_UnicodeDecodeError x = false ->
  let w' := snd (main_entry env args f w) in
  fst (main_entry env args f w) = Ok tt
  /\ requests w' = requests w
  /\ out_txt w' = out_txt w
  /\ (exists evs,
        events w' = events w ++ EvProcessingFile (entry_name f) :: evs
                    ++ [EvErrorProcessing (entry_name f) x])
  /\ main_file_loop env args (f :: rest) w = main_file_loop env args rest w'.
Proof.
  intros Hsel Hx Hr Hu w'. subst w'.
  set (w0 := add_event (EvProcessingFile (entry_name f)) w).
  assert (He : extract_text_from_file env f w0
               = (Raise x, snd (blocking_step env w0))).
  { rewrite (extract_txt_branch env f Hx).
    unfold bind, blocking_step, try_except, lift. cbn [fst snd].
    now rewrite Hr, Hu. }
  assert (Hb : main_file_body env args f w0
               = (Raise x, snd (blocking_step env w0))).
  { unfold main_file_body, bind. now rewrite He. }
  assert (Hentry : main_entry env args f w
                   = (Ok tt,
                      add_event (EvErrorProcessing (entry_name f) x)
                        (snd (blocking_step env w0)))).
  { unfold main_entry. rewrite Hsel.
    unfold bind, emit_event, try_except, any_Exception. fold w0.
    now rewrite Hb. }
  rewrite main_file_loop_step, Hentry. cbn [fst snd].
  split; [reflexivity |].
  unfold blocking_step, w0. cbn [snd].
  destruct (user_stop env (clock (add_event _ w))); cbn.
  - split; [reflexivity |]. split; [reflexivity |]. split; [| reflexivity].
    exists [EvStopRequested]. now rewrite <- !app_assoc.
  - split; [reflexivity |]. split; [reflexivity |]. split; [| reflexivity].
    exists []. now rewrite <- !app_assoc.
Qed.

Lemma unreadable_text_file_is_reported_witness :
  fst (main_entry env_directory_named_txt args_hello
         (Dir (str "notes.txt") []) world_start) = Ok tt
  /\ requests (snd (main_entry env_directory_named_txt args_hello
                      (Dir (str "notes.txt") []) world_start)) = [].
Proof.
  destruct (unreadable_text_file_is_reported env_directory_named_txt
              args_hello (Dir (str "notes.txt") []) [file_hello] world_start
              is_a_directory eq_refl eq_refl eq_refl eq_refl)
    as [H1 [H2 _]].
  split; [exact H1 | exact H2].
Defined.

(** ** A cancelled run against the run that is left alone *)

Lemma prefix_of_refl {A} (a : list A) : prefix_of a a.
Proof. exists []. now rewrite app_nil_r. Qed.

Lemma agree_behind (w w0 : World) : agree w w0 -> behind w w0.
Proof.
  intros [H1 H2]. split; [rewrite H1 | rewrite H2]; apply prefix_of_refl.
Qed.

Lemma behind_grows (w w0 w0' : World) :
  behind w w0 -> grows any_event w0 w0' -> behind w w0'.
Proof.
  intros [[a Ha] [r Hr]] [[a' Ha'] [[r' Hr'] _]]. split.
  - exists (a ++ a'). now rewrite Ha', Ha, app_assoc.
  - exists (r ++ r'). now rewrite Hr', Hr, app_assoc.
Qed.

Lemma agree_add_event (e e0 : Event) (w w0 : World) :
  agree w w0 -> agree (add_event e w) (add_event e0 w0).
Proof. intros H. exact H. Qed.

Lemma after_call_agree (env env0 : Env) (r : Request) (w w0 : World) :
  agree w w0 -> agree (after_call env r w) (after_call env0 r w0).
Proof.
  intros [H1 H2]. split.
  - now rewrite !after_call_out_content.
  - now rewrite !after_call_requests, H2.
Qed.

Lemma write_step_agree (name : text) (chunk : option Z) (v : json)
    (w w0 : World) :
  agree w w0 ->
  fst (write_step name chunk v w) = fst (write_step name chunk v w0)
  /\ agree (snd (write_step name chunk v w))
       (snd (write_step name chunk v w0)).
Proof.
  intros [H1 H2].
  unfold write_step, bind, emit_event, write_record, append_out, raise.
  destruct v; cbn [fst snd]; (split; [reflexivity |]);
    unfold agree, out_content in *; cbn; rewrite ?H1, ?H2; auto;
    unfold out_content in *; cbn; rewrite ?H1; auto.
Qed.

Lemma extract_result_pure (env env0 : Env) (f : Entry) (w w0 : World) :
  fst (extract_text_from_file env f w)
  = fst (extract_text_from_file env0 f w0).
Proof.
  unfold extract_text_from_file, extract_text_from_pdf,
    extract_text_from_docx, bind, blocking_step, try_except, lift,
    any_Exception, emit_event, ret.
  cbn [fst snd].
  repeat match goal with
         | |- context [if ?b then _ else _] => destruct b; cbn [fst snd]
         | |- context [match ?r with Ok _ => _ | Raise _ => _ end] =>
             destruct r; cbn [fst snd]
         end; reflexivity.
Qed.

Lemma extract_agree (env env0 : Env) (f : Entry) (w w0 : World) :
  agree w w0 ->
  agree (snd (extract_text_from_file env f w))
    (snd (extract_text_from_file env0 f w0)).
Proof.
  intros [H1 H2]. split.
  - unfold out_content in *. now rewrite !extract_text_from_file_out.
  - now rewrite !extract_text_from_file_requests.
Qed.

Section Cancellation.

Variables env env0 : Env.
Hypothesis same_endpoint : endpoint env0 = endpoint env.

Variables (target_dir p : text) (mw : Z) (m u : text).

Let gargs := gui_args target_dir p mw m u.

Lemma client_value_agree (t : text) (w w0 : World) :
  agree w w0 ->
  client_value
    (endpoint env0 (length (requests w0)) (request_for gargs t))
    (request_for gargs t)
  = client_value
      (endpoint env (length (requests w)) (request_for gargs t))
      (request_for gargs t).
Proof. intros [_ H]. now rewrite same_endpoint, H. Qed.

Lemma chunk_loop_cancel (name : text) (chunks : list text) :
  forall i w w0, agree w w0 ->
  let res := process_documents_chunk_loop env p m u name i chunks w in
  let res0 := main_chunk_loop env0 gargs name i chunks w0 in
  (fst res = fst res0 /\ agree (snd res) (snd res0))
  \/ (fst res = Ok tt /\ stop_processing (snd res) = true
      /\ behind (snd res) (snd res0)).
Proof.
  induction chunks as [| c chunks IH]; intros i w w0 Hag; cbv zeta.
  - left. split; [reflexivity | exact Hag].
  - rewrite (process_documents_chunk_loop_turn env p mw).
    destruct (stop_processing w) eqn:Hs.
    + right. cbn [fst snd]. split; [reflexivity |]. split; [exact Hs |].
      apply behind_grows with (w0 := w0);
        [exact (agree_behind _ _ Hag) | apply g_main_chunk_loop].
    + rewrite main_chunk_loop_turn.
      change (request_for (gui_args [] p mw m u) c)
        with (request_for gargs c).
      rewrite (client_value_agree c w w0 Hag).
      pose proof (after_call_agree env env0 (request_for gargs c) w w0 Hag)
        as Hcall.
      destruct (client_value _ _) as [v | e].
      * destruct (write_step_agree name (Some i) v _ _ Hcall) as [Hf Hw].
        destruct (write_step name (Some i) v
                    (after_call env (request_for gargs c) w))
          as [[[] | e1] w1];
          destruct (write_step name (Some i) v
                      (after_call env0 (request_for gargs c) w0))
            as [[[] | e2] w2]; cbn [fst snd] in Hf, Hw;
            try discriminate.
        -- apply IH. exact Hw.
        -- left. split; [exact Hf | exact Hw].
      * left. split; [reflexivity | exact Hcall].
Qed.

Lemma single_shot_agree (name t : text) (w w0 : World) :
  agree w w0 ->
  fst (single_shot env gargs name t w)
  = fst (single_shot env0 gargs name t w0)
  /\ agree (snd (single_shot env gargs name t w))
       (snd (single_shot env0 gargs name t w0)).
Proof.
  intros Hag. rewrite !single_shot_turn.
  rewrite (client_value_agree t w w0 Hag).
  pose proof (after_call_agree env env0 (request_for gargs t) w w0 Hag)
    as Hcall.
  destruct (client_value _ _) as [v | e].
  - now apply write_step_agree.
  - split; [reflexivity | exact Hcall].
Qed.

Lemma file_body_cancel (f : Entry) (w w0 : World) :
  agree w w0 ->
  let res := process_documents_file_body env p mw m u f w in
  let res0 := main_file_body env0 gargs f w0 in
  (fst res = fst res0 /\ agree (snd res) (snd res0))
  \/ (fst res = Ok tt /\ stop_processing (snd res) = true
      /\ behind (snd res) (snd res0)).
Proof.
  intros Hag. cbv zeta.
  pose proof (extract_result_pure env env0 f w w0) as Hres.
  pose proof (extract_agree env env0 f w w0 Hag) as Hx.
  destruct (extract_text_from_file env f w) as [[raw | e] w1] eqn:He;
    destruct (extract_text_from_file env0 f w0) as [[raw0 | e0] w01] eqn:He0;
    cbn [fst snd] in Hres, Hx; try discriminate.
  - inversion Hres; subst raw0.
    destruct raw as [| c raw].
    + left. unfold process_documents_file_body, main_file_body, bind.
      rewrite He, He0. cbn. split; [reflexivity | exact Hx].
    + rewrite (process_documents_file_body_unfold env target_dir p mw m u f
                 (c :: raw) w w1 He) by discriminate.
      rewrite (main_file_body_unfold env0 gargs f (c :: raw) w0 w01 He0)
        by discriminate.
      cbn [max_words gargs gui_args].
      destruct (_ <=? _)%Z.
      * left. now apply single_shot_agree.
      * now apply chunk_loop_cancel.
  - left. unfold process_documents_file_body, main_file_body, bind.
    rewrite He, He0. cbn [fst snd]. inversion Hres. split; [reflexivity |].
    exact Hx.
Qed.

Lemma entry_cancel (f : Entry) (w w0 : World) :
  agree w w0 ->
  let w' := snd (process_documents_entry env p mw m u f w) in
  let w0' := snd (main_entry env0 gargs f w0) in
  agree w' w0' \/ (stop_processing w' = true /\ behind w' w0').
Proof.
  intros Hag. cbv zeta. unfold process_documents_entry, main_entry.
  destruct (selected (entry_name f)); [| left; exact Hag].
  unfold bind, emit_event, try_except, any_Exception.
  pose proof (file_body_cancel f
                (add_event (EvProcessingFile (entry_name f)) w)
                (add_event (EvProcessingFile (entry_name f)) w0) Hag) as H.
  cbv zeta in H.
  destruct (process_documents_file_body env p mw m u f _)
    as [[[] | e] w1];
    destruct (main_file_body env0 gargs f _) as [[[] | e0] w01];
    cbn [fst snd] in *;
    destruct H as [[Hf H] | [Hf [Hs H]]]; try discriminate;
    first [left; exact H | right; split; [exact Hs | exact H]].
Qed.

Lemma file_loop_cancel (files : list Entry) :
  forall w w0,
  agree w w0 \/ (stop_processing w = true /\ behind w w0) ->
  behind (snd (process_documents_file_loop env p mw m u files w))
    (snd (main_file_loop env0 gargs files w0)).
Proof.
  induction files as [| f files IH]; intros w w0 H.
  - cbn. destruct H as [H | [_ H]]; [now apply agree_behind | exact H].
  - rewrite process_documents_file_loop_step.
    destruct (stop_processing w) eqn:Hs.
    + cbn [snd]. apply behind_grows with (w0 := w0);
        [| apply g_main_file_loop].
      destruct H as [H | [_ H]]; [now apply agree_behind | exact H].
    + destruct H as [H | [H _]]; [| congruence].
      rewrite main_file_loop_step. apply IH. now apply entry_cancel.
Qed.

End Cancellation.

Lemma behind_refl (w : World) : behind w w.
Proof. split; apply prefix_of_refl. Qed.

Lemma process_documents_cancel (env : Env) (target_dir p : text) (mw : Z)
    (m u : text) (w : World) :
  behind (snd (process_documents env target_dir p mw m u w))
    (snd (process_documents (without_stops env) target_dir p mw m u w)).
Proof.
  rewrite !process_documents_ok. cbn [snd].
  change (listdir (without_stops env) target_dir)
    with (listdir env target_dir).
  set (files := glob_star_dot_star (listdir env target_dir)).
  assert (H : behind
                (snd (process_documents_file_loop env p mw m u files w))
                (snd (process_documents_file_loop (without_stops env) p mw m
                        u files w))).
  { destruct (stop_processing w) eqn:Hs.
    - rewrite !process_documents_file_loop_stopped by assumption.
      apply behind_refl.
    - rewrite (process_documents_file_loop_never_stopped (without_stops env)
                 target_dir p mw m u files (fun _ => eq_refl) w Hs).
      apply file_loop_cancel; [reflexivity |].
      left. split; reflexivity. }
  exact H.
Qed.

(** X16.  Pressing Stop only cuts a run short.  Against the same run with
    Stop never pressed (the same directory, the same answers of the
    endpoint), the requests of the run are the first requests and the
    content of [out.txt] is the beginning of the content: a cancelled run
    sends nothing else, writes nothing else and writes nothing in another
    order. *)
Theorem cancellation_only_truncates (env : Env) (target_dir p : text)
    (mw : Z) (m u : text) (f : Fields) (w : World) :
  (prefix_of (out_content (snd (process_documents env target_dir p mw m u w)))
     (out_content
        (snd (process_documents (without_stops env) target_dir p mw m u w)))
   /\ prefix_of (requests (snd (process_documents env target_dir p mw m u w)))
        (requests
           (snd (process_documents (without_stops env) target_dir p mw m u
                   w))))
  /\ (prefix_of (out_content (snd (gui_run env f w)))
        (out_content (snd (gui_run (without_stops env) f w)))
      /\ prefix_of (requests (snd (gui_run env f w)))
           (requests (snd (gui_run (without_stops env) f w)))).
Proof.
  split; [exact (process_documents_cancel env target_dir p mw m u w) |].
  change (behind (snd (gui_run env f w))
            (snd (gui_run (without_stops env) f w))).
  unfold gui_run, bind.
  change (start_processing (without_stops env) f w)
    with (start_processing env f w).
  destruct (start_processing env f w)
    as [[[[[[[d p'] mw'] m'] u'] |] | e] w1];
    first [apply process_documents_cancel | apply behind_refl].
Qed.

(** ** Documents without words, and responses that are not text *)

Lemma allspace_lines (parts : list text) :
  Forall allspace parts ->
  allspace (concat (map (fun part => part ++ [NL]) parts)).
Proof.
  induction 1 as [| part parts Hp Hparts IH]; [constructor |].
  cbn [map concat]. apply Forall_app. split; [| exact IH].
  apply Forall_app. split; [exact Hp | repeat constructor].
Qed.

(** X17.  A PDF or a Word document that has pages (paragraphs) but no
    word, such as a scanned PDF, is not skipped: its extracted text is the
    newlines of its pages, which normalises to the empty text, and with a
    limit that is not negative both drivers send one request with an empty
    payload for it. *)
Theorem document_without_words_is_sent_empty (env : Env) (args : Args)
    (e : Entry) (w : World) (parts : list text) :
  (lower (suffix (entry_name e)) = str ".pdf"
   /\ pdf_pages (entry_data e) = Ok parts)
  \/ ((lower (suffix (entry_name e)) = str ".docx"
       \/ lower (suffix (entry_name e)) = str ".doc")
      /\ docx_paragraphs (entry_data e) = Ok parts) ->
  parts <> [] ->
  Forall allspace parts ->
  (0 <= max_words args)%Z ->
  requests (snd (main_file_body env args e w))
  = requests w ++ [request_for args []]
  /\ requests (snd (process_documents_file_body env (prompt args)
                      (max_words args) (model args) (url args) e w))
     = requests w
       ++ [request_for (gui_args (directory args) (prompt args)
                          (max_words args) (model args) (url args)) []].
Proof.
  intros H Hne Hws Hmax.
  set (raw := concat (map (fun part => part ++ [NL]) parts)).
  assert (He : extract_text_from_file env e w
               = (Ok raw, snd (blocking_step env w))).
  { destruct H as [[Hx Hp] | [Hx Hp]].
    - rewrite (extract_pdf_branch env e Hx).
      unfold bind, blocking_step, extract_text_from_pdf. cbn.
      now rewrite Hp.
    - rewrite (extract_docx_branch env e Hx).
      unfold bind, blocking_step, extract_text_from_docx. cbn.
      now rewrite Hp. }
  assert (Hraw : raw <> []).
  { unfold raw. destruct parts as [| part parts]; [congruence |].
    cbn. destruct part; discriminate. }
  assert (Hn : normalize raw = [])
    by (apply normalize_allspace, allspace_lines, Hws).
  assert (Hr : requests (snd (blocking_step env w)) = requests w).
  { pose proof (extract_text_from_file_requests env e w) as Hq.
    now rewrite He in Hq. }
  rewrite (main_file_body_unfold env args e raw w _ He Hraw).
  rewrite (process_documents_file_body_unfold env (directory args)
             (prompt args) (max_words args) (model args) (url args) e raw w
             _ He Hraw).
  rewrite Hn. change (word_count []) with 0%Z.
  replace (0 <=? max_words args)%Z with true
    by (symmetry; now apply Z.leb_le).
  now rewrite !single_shot_requests, Hr.
Qed.

Lemma document_without_words_is_sent_empty_witness :
  requests (snd (main_file_body env_hello args_hello file_scan world_start))
  = requests world_start ++ [request_for args_hello []].
Proof.
  exact (proj1 (document_without_words_is_sent_empty env_hello args_hello
                  file_scan world_start [[]; [SP]]
                  (or_introl (conj eq_refl eq_refl))
                  ltac:(discriminate) ltac:(repeat constructor)
                  ltac:(vm_compute; discriminate))).
Defined.

Lemma write_step_non_string (name : text) (chunk : option Z) (v : json)
    (w : World) :
  (forall s, v <> JStr s) ->
  write_step name chunk v w
  = (Raise (TypeError (str "write() argument must be str")),
     set_out (Some (out_content w ++ header name chunk))
       (add_event (EvResponse name chunk v) w)).
Proof.
  intros Hv.
  unfold write_step, bind, emit_event, write_record, append_out, raise.
  destruct v; try reflexivity. exfalso. now apply (Hv s).
Qed.

(** X18.  When the endpoint's ["response"] field is not a string, the
    client returns it, the header of the record is written, and the write
    of the body raises [TypeError]: [out.txt] is left with a header that
    has no body, and the exception goes to the file boundary, where the
    treatment of the file ends with "Error processing". *)
Theorem non_string_response_leaves_a_header (env : Env) (args : Args)
    (file : Entry) (raw : text) (w w1 : World) (v : json) :
  extract_text_from_file env file w = (Ok raw, w1) ->
  raw <> [] ->
  (word_count (normalize raw) <= max_words args)%Z ->
  client_value
    (endpoint env (length (requests w1))
       (request_for args (normalize raw)))
    (request_for args (normalize raw)) = Ok v ->
  (forall s, v <> JStr s) ->
  fst (main_file_body env args file w)
  = Raise (TypeError (str "write() argument must be str"))
  /\ out_content (snd (main_file_body env args file w))
     = out_content w1 ++ header (entry_name file) None
  /\ requests (snd (main_file_body env args file w))
     = requests w1 ++ [request_for args (normalize raw)].
Proof.
  intros He Hraw Hle Hc Hv.
  rewrite (main_file_body_unfold env args file raw w w1 He Hraw).
  apply Z.leb_le in Hle. rewrite Hle, single_shot_turn, Hc.
  rewrite (write_step_non_string _ _ _ _ Hv). cbn [fst snd].
  split; [reflexivity |]. split.
  - change (out_content (set_out ?o ?x))
      with (match o with Some c => c | None => [] end).
    cbn iota. now rewrite after_call_out_content.
  - change (requests (set_out ?o (add_event ?e ?x))) with (requests x).
    apply after_call_requests.
Qed.

Lemma non_string_response_leaves_a_header_witness :
  fst (main_file_body env_number_response args_hello file_hello world_start)
  = Raise (TypeError (str "write() argument must be str"))
  /\ out_content
       (snd (main_file_body env_number_response args_hello file_hello
               world_start))
     = header (str "a.txt") None.
Proof.
  destruct (non_string_response_leaves_a_header env_number_response
              args_hello file_hello (str "hello") world_start
              (snd (extract_text_from_file env_number_response file_hello
                      world_start))
              (JNum (str "42")) eq_refl ltac:(discriminate)
              ltac:(vm_compute; discriminate) eq_refl
              ltac:(discriminate)) as [H1 [H2 _]].
  split; [exact H1 | exact H2].
Defined.

(** ** Starting a run *)

(** X19.  A Start that is accepted and finds the directory begins from a
    clean state: the Stop flag of an earlier run is cleared, [out.txt] is
    emptied, the Start button is disabled and the Stop button enabled, and
    no request has been sent yet.  Hence the run does not depend on the
    flag, the content of [out.txt] or the buttons it found. *)
Theorem a_new_run_starts_clean (env : Env) (f : Fields) (w : World)
    (old : option text) (flag b1 b2 : bool) :
  (forall started w1,
     start_processing env f w = (Ok (Some started), w1) ->
     stop_processing w1 = false /\ out_txt w1 = Some []
     /\ start_button w1 = false /\ stop_button w1 = true
     /\ requests w1 = requests w
     /\ events w1 = events w ++ [EvOutputCleared])
  /\ (fst (start_processing env f w) <> Ok None ->
      isdir env (directory_var f) = true ->
      gui_run env f
        (mkWorld old (requests w) (events w) flag (clock w) b1 b2)
      = gui_run env f w).
Proof.
  split.
  - intros started w1. unfold start_processing.
    destruct (py_int (max_words_var f)) as [mw |].
    + destruct (_ || _).
      * cbn. intros H. inversion H.
      * unfold bind, touch, truncate_out, emit_event, ret.
        destruct (isdir env _); [| cbn; intros H; inversion H].
        destruct (out_txt _); cbn; intros H; inversion H; subst; cbn;
          auto 10.
    + cbn. intros H. inversion H.
  - unfold gui_run, bind, start_processing.
    destruct (py_int (max_words_var f)) as [mw |].
    + destruct (_ || _).
      * cbn. congruence.
      * intros _ Hd. rewrite Hd.
        unfold bind, touch, truncate_out, emit_event, ret.
        cbn. destruct old, (out_txt w); reflexivity.
    + cbn. congruence.
Qed.

(** ** Cancellation during a run *)











